(** * Verification of the rollup-processor client ([Contracts])

    The development embeds the TypeScript class [Contracts] of the
    blockchain package: Node [Buffer]s are lists of bytes, awaited promises
    are settled outcomes, the object's fields and the transactions it hands
    to the chain provider are threaded as explicit state, and everything the
    class imports from other packages (the ethers provider, the ABI decoder,
    the proof-data accessors, [EthAddress]) is an interface the definitions
    are parametrised over. *)

From Stdlib Require Import ZArith Strings.Ascii Strings.String Strings.Byte Sorting.Sorted.
From stdpp Require Import base option list list_numbers sorting.

Local Open Scope Z_scope.

(** ** Node buffers *)

Module Buffer.

Definition t := list byte.

(** Index normalisation shared by [slice]: a negative index counts from the
    end, and every index is clamped to [0, len]. *)
Definition clamp (len i : Z) : Z :=
  if i <? 0 then Z.max (len + i) 0 else Z.min i len.

(** [buf.slice(start, end)]; [end_ = None] is the omitted argument. *)
Definition slice (buf : t) (start : Z) (end_ : option Z) : t :=
  let len := Z.of_nat (length buf) in
  let s := clamp len start in
  let e := clamp len (default len end_) in
  take (Z.to_nat (e - s)) (drop (Z.to_nat s) buf).

(** [Buffer.alloc(size)]: zero filled. *)
Definition alloc (size : nat) : t := replicate size x00.

(** [Buffer.concat(list)]. *)
Definition concat (bufs : list t) : t := List.concat bufs.

(** Value of one hexadecimal digit. *)
Definition hexDigit (c : ascii) : option N :=
  let n := N_of_ascii c in
  if ((48 <=? n) && (n <=? 57))%N then Some (n - 48)%N
  else if ((97 <=? n) && (n <=? 102))%N then Some (n - 87)%N
  else if ((65 <=? n) && (n <=? 70))%N then Some (n - 55)%N
  else None.

Definition byteOfN (n : N) : byte := default x00 (Byte.of_N n).

(** [Buffer.from(str, 'hex')]: decodes two digits at a time and stops at
    the first pair that is not hexadecimal; a trailing single digit is
    dropped. *)
Fixpoint fromHex (str : string) : t :=
  match str with
  | String hi (String lo rest) =>
      match hexDigit hi, hexDigit lo with
      | Some h, Some l => byteOfN (16 * h + l) :: fromHex rest
      | _, _ => []
      end
  | _ => []
  end.

Definition hexChar (n : N) : ascii :=
  if (n <? 10)%N then ascii_of_N (48 + n) else ascii_of_N (87 + n).

(** [buf.toString('hex')]. *)
Fixpoint toHex (buf : t) : string :=
  match buf with
  | [] => EmptyString
  | b :: rest =>
      let n := Byte.to_N b in
      String (hexChar (n / 16)) (String (hexChar (n mod 16)) (toHex rest))
  end.

End Buffer.

(** [str.slice(2)] on a string: everything after the first two characters. *)
Definition dropPrefix2 (str : string) : string :=
  match str with
  | String _ (String _ rest) => rest
  | _ => EmptyString
  end.

(** ** Signature encoder *)

(** The callback of [signatures.map] in [solidityFormatSignatures]. *)
Definition paddedSignature (currentSignature : Buffer.t) : Buffer.t :=
  let v := Buffer.slice currentSignature (-1) None in
  Buffer.concat [Buffer.slice currentSignature 0 (Some 64); Buffer.alloc 31; v].

Definition solidityFormatSignatures (signatures : list Buffer.t) : Buffer.t :=
  let paddedSignatures := map paddedSignature signatures in
  Buffer.concat paddedSignatures.

(** ** Settled promises and thrown exceptions *)

(** What a rejected promise or a [throw] carries: an error raised locally by
    the JavaScript runtime, or one reported by the chain provider. *)
Inductive Error :=
  | TypeError (message : string)
  | ProviderError (reason : string).

(** The outcome of an awaited promise (and of code that may throw). *)
Inductive Settled (A : Type) :=
  | Resolved (value : A)
  | Rejected (error : Error).
Arguments Resolved {A} value.
Arguments Rejected {A} error.

Global Instance Settled_ret : MRet Settled := λ A a, Resolved a.
Global Instance Settled_bind : MBind Settled := λ A B f m,
  match m with
  | Resolved a => f a
  | Rejected e => Rejected e
  end.
Global Instance Settled_fmap : FMap Settled := λ A B f m,
  match m with
  | Resolved a => Resolved (f a)
  | Rejected e => Rejected e
  end.

(** [Promise.all]: the promises settle in some completion order; a fulfilled
    promise stores its value in the slot of its own index, and the first
    promise found rejected rejects the whole. [order] lists the indices in
    completion order; promises it leaves out complete afterwards. *)
Fixpoint settleInOrder {A} (promises : list (Settled A)) (order : list nat)
    (values : list (option A)) : Settled (list (option A)) :=
  match order with
  | [] => Resolved values
  | i :: rest =>
      match promises !! i with
      | Some (Resolved v) => settleInOrder promises rest (<[i := Some v]> values)
      | Some (Rejected e) => Rejected e
      | None => settleInOrder promises rest values
      end
  end.

Definition Promise_all {A} (order : list nat) (promises : list (Settled A))
    : Settled (list A) :=
  let n := length promises in
  match settleInOrder promises (order ++ seq 0 n) (replicate n None) with
  | Resolved values => Resolved (omap (M:=list) id values)
  | Rejected e => Rejected e
  end.

(** While a join is under way, every slot is either still empty or holds the
    value of its promise. *)
Definition slotsAgree {A} (vs : list A) (values : list (option A)) : Prop :=
  length values = length vs ∧
  ∀ i, (i < length vs)%nat → values !! i = Some None ∨ values !! i = Some (vs !! i).

Definition fulfilledValue {A} (p : Settled A) : option A :=
  match p with
  | Resolved v => Some v
  | Rejected _ => None
  end.

(** ** Data exchanged with the chain *)

Inductive Abi := RollupABI | ERC20ABI | ERC20PermitABI.

(** Third argument of [new Contract]: the provider itself, or a signer
    obtained with [provider.getSigner(index)] / [provider.getSigner(address)]. *)
Inductive SignerOrProvider :=
  | FromProvider
  | SignerIndex (index : Z)
  | SignerAddress (address : string).

Record Contract := mkContract {
  address : string;
  interface : Abi;
  signerOrProvider : SignerOrProvider;
}.

Record EthereumSignature := { v : Buffer.t; r : Buffer.t; s : Buffer.t }.

Record PermitArgs := {
  deadline : Z;
  approvalAmount : Z;
  signature : EthereumSignature;
}.

(** State-changing calls of the rollup processor, with the arguments in the
    order the class passes them. *)
Inductive RollupCall :=
  | call_setSupportedAsset (assetAddress : string) (supportsPermit : bool)
  | call_processRollup (proofData : string) (signatures : Buffer.t)
      (sigIndexes : list Z) (viewingKeys : Buffer.t) (gasLimit : option Z)
  | call_depositPendingFundsPermit (assetId amount : Z) (depositorAddress : string)
      (spender : string) (approvalAmount deadline : Z) (v r s : Buffer.t)
  | call_depositPendingFunds (assetId amount : Z) (depositorAddress : string).

(** Read calls of a token contract. *)
Inductive Erc20Call :=
  | call_balanceOf (owner : string)
  | call_nonces (owner : string)
  | call_allowance (owner spender : string).

(** [filters.RollupProcessed(rollupId?)]. *)
Inductive EventFilter := RollupProcessed (rollupId : option Z).

Module Event.
Record t := { blockNumber : Z; rollupId : Z; transactionHash : string }.
End Event.

(** ethers' [TransactionResponse], with the fields the class reads. *)
Module Tx.
Record t := {
  hash : string;
  data : string;
  confirmations : Z;
  blockNumber : option Z;
  timestamp : option Z;
}.
End Tx.

(** The provider's block, of which only the timestamp is read. *)
Module EthBlock.
Record t := { timestamp : Z }.
End EthBlock.

(** [result.args] of a parsed [processRollup] transaction. *)
Record ParsedArgs := { args_proofData : string; args_viewingKeys : string }.

(** The rollup block handed back to callers; [created] is the [Date] in
    milliseconds, [None] standing for an invalid date. *)
Module Block.
Record t := {
  created : option Z;
  txHash : Buffer.t;
  rollupProofData : Buffer.t;
  viewingKeysData : Buffer.t;
  rollupId : Z;
  rollupSize : Z;
}.
End Block.

(** ** What the class imports

    [EthAddress] and [RollupProofData] come from barretenberg,
    [parseTransaction] from ethers with the rollup ABI, and the remaining
    fields are the answers of the chain provider to the requests the class
    makes. *)
Class Environment := {
  EthAddress : Type;
  toString : EthAddress → string;
  getRollupIdFromBuffer : Buffer.t → Settled Z;
  getRollupSizeFromBuffer : Buffer.t → Settled Z;
  parseTransaction : string → Settled ParsedArgs;
  queryFilter : Contract → EventFilter → option Z → Settled (list Event.t);
  getTransaction : Event.t → Settled Tx.t;
  getBlock : option Z → Settled EthBlock.t;
  sendTransaction : Contract → RollupCall → Settled Tx.t;
  read_getSupportedAssets : Contract → Settled (list string);
  read_getAssetPermitSupport : Contract → Z → Settled bool;
  readErc20 : Contract → Erc20Call → Settled Z;
}.

(** ** The class [Contracts] *)

Section Contracts.
Context `{Env : Environment}.

Record Contracts := {
  rollupContractAddress : EthAddress;
  rollupProcessor : Contract;
  erc20Contracts : list Contract;
}.

Definition constructor (rollupContractAddress : EthAddress) : Contracts :=
  {| rollupContractAddress := rollupContractAddress;
     rollupProcessor := mkContract (toString rollupContractAddress) RollupABI FromProvider;
     erc20Contracts := [] |}.

(** The object together with the transactions handed to the provider so
    far, in the order they were issued. *)
Record State := {
  this : Contracts;
  issued : list (Contract * RollupCall);
}.

(** Methods that write: they run on a state and leave one behind, also when
    they reject. *)
Definition Method (A : Type) : Type := State → Settled A * State.

Global Instance Method_ret : MRet Method := λ A a st, (Resolved a, st).
Global Instance Method_bind : MBind Method := λ A B f m st,
  match m st with
  | (Resolved a, st') => f a st'
  | (Rejected e, st') => (Rejected e, st')
  end.

Definition getThis : Method Contracts := λ st, (Resolved (this st), st).

(** Calling a state-changing method of a contract object: the request goes
    to the provider, which answers with the transaction or rejects. *)
Definition invoke (contract : Contract) (call : RollupCall) : Method Tx.t :=
  λ st, (sendTransaction contract call,
         {| this := this st; issued := issued st ++ [(contract, call)] |}).

(** [this.erc20Contracts.push(contract)]. *)
Definition pushErc20Contract (contract : Contract) : Method unit :=
  λ st, (Resolved (),
         {| this := {| rollupContractAddress := rollupContractAddress (this st);
                       rollupProcessor := rollupProcessor (this st);
                       erc20Contracts := erc20Contracts (this st) ++ [contract] |};
            issued := issued st |}).

(** [signingAddress ? provider.getSigner(signingAddress.toString())
                    : provider.getSigner(0)]. *)
Definition signerFor (signingAddress : option EthAddress) : SignerOrProvider :=
  match signingAddress with
  | Some a => SignerAddress (toString a)
  | None => SignerIndex 0
  end.

Definition init (order : list nat) : Method unit := λ st,
  let self := this st in
  match
    assetAddresses ← read_getSupportedAssets (rollupProcessor self);
    Promise_all order
      (imap (λ index a,
         assetPermitSupport ← read_getAssetPermitSupport (rollupProcessor self) (Z.of_nat index);
         let newContractABI := if (assetPermitSupport : bool) then ERC20PermitABI else ERC20ABI in
         Resolved (mkContract a newContractABI FromProvider)) assetAddresses)
  with
  | Resolved contracts =>
      (Resolved (),
       {| this := {| rollupContractAddress := rollupContractAddress self;
                     rollupProcessor := rollupProcessor self;
                     erc20Contracts := contracts |};
          issued := issued st |})
  | Rejected e => (Rejected e, st)
  end.

Definition setSupportedAsset (assetAddress : EthAddress) (supportsPermit : bool)
    (signingAddress : option EthAddress) : Method Buffer.t :=
  self ← getThis;
  let signer := signerFor signingAddress in
  let rollupProcessor := mkContract (toString (rollupContractAddress self)) RollupABI signer in
  tx ← invoke rollupProcessor (call_setSupportedAsset (toString assetAddress) supportsPermit);
  let newContractABI := if supportsPermit then ERC20PermitABI else ERC20ABI in
  _ ← pushErc20Contract (mkContract (toString assetAddress) newContractABI FromProvider);
  mret (Buffer.fromHex (dropPrefix2 (Tx.hash tx))).

Definition sendRollupProof (proofData : Buffer.t) (signatures : list Buffer.t)
    (sigIndexes : list Z) (viewingKeys : list Buffer.t)
    (signingAddress : option EthAddress) (gasLimit : option Z) : Method Buffer.t :=
  self ← getThis;
  let signer := signerFor signingAddress in
  let rollupProcessor := mkContract (toString (rollupContractAddress self)) RollupABI signer in
  let formattedSignatures := solidityFormatSignatures signatures in
  tx ← invoke rollupProcessor
         (call_processRollup ("0x" ++ Buffer.toHex proofData) formattedSignatures
            sigIndexes (Buffer.concat viewingKeys) gasLimit);
  mret (Buffer.fromHex (dropPrefix2 (Tx.hash tx))).

(** The options object of the plain call is empty and the permit call has
    none: the [value] override is commented out in both. *)
Definition depositPendingFunds (assetId amount : Z) (depositorAddress : EthAddress)
    (permitArgs : option PermitArgs) : Method Buffer.t :=
  self ← getThis;
  let signer := SignerAddress (toString depositorAddress) in
  let rollupProcessor := mkContract (toString (rollupContractAddress self)) RollupABI signer in
  tx ← match permitArgs with
       | Some permitArgs =>
           invoke rollupProcessor
             (call_depositPendingFundsPermit assetId amount (toString depositorAddress)
                (address (Contracts.rollupProcessor self))
                (approvalAmount permitArgs) (deadline permitArgs)
                (v (signature permitArgs)) (r (signature permitArgs))
                (s (signature permitArgs)))
       | None =>
           invoke rollupProcessor
             (call_depositPendingFunds assetId amount (toString depositorAddress))
       end;
  mret (Buffer.fromHex (dropPrefix2 (Tx.hash tx))).

(** [xs[i]] for a JavaScript number [i] that is an integer: [undefined]
    ([None]) below zero and from the length on. *)
Definition index {A} (xs : list A) (i : Z) : option A :=
  if i <? 0 then None else xs !! Z.to_nat i.

(** Reading a property or calling a method of a value that may be
    [undefined] throws a [TypeError]. *)
Definition member {A} (x : option A) : Settled A :=
  match x with
  | Some a => Resolved a
  | None => Rejected (TypeError "Cannot read properties of undefined")
  end.

(** Modelled from the spec: the ABI artifacts (ERC20Mintable.json,
    ERC20Permit.json, RollupProcessor.json) are not among the sources. The
    base asset interface has the ERC-20 reads [balanceOf] and [allowance];
    the permit-aware interface has these and the permit counter [nonces];
    the rollup processor's interface has none of the three. A contract
    object has a method only for what its interface defines. *)
Definition abiDefines (abi : Abi) (call : Erc20Call) : bool :=
  match abi, call with
  | ERC20PermitABI, _ => true
  | ERC20ABI, call_nonces _ => false
  | ERC20ABI, _ => true
  | RollupABI, _ => false
  end.

(** Reading the property [name] of a value that may be [undefined]; the
    [TypeError] names the property. *)
Definition property {A} (name : string) (x : option A) : Settled A :=
  match x with
  | Some a => Resolved a
  | None =>
      Rejected (TypeError ("Cannot read properties of undefined (reading '" ++ name ++ "')"))
  end.

(** Calling a read method of a contract object, [callee] being the
    expression called: where the interface of the object does not define
    the method, the property is [undefined] and the call throws before any
    request is made. *)
Definition callRead (callee : string) (contract : Contract) (call : Erc20Call)
    : Settled Z :=
  if abiDefines (interface contract) call then readErc20 contract call
  else Rejected (TypeError (callee ++ " is not a function")).

Definition getAssetBalance (self : Contracts) (assetId : Z) (address : EthAddress)
    : Settled Z :=
  contract ← property "balanceOf" (index (erc20Contracts self) assetId);
  callRead "this.erc20Contracts[assetId].balanceOf" contract
    (call_balanceOf (toString address)).

Definition getUserNonce (self : Contracts) (assetId : Z) (address : EthAddress)
    : Settled Z :=
  tokenPermitContract ← property "nonces" (index (erc20Contracts self) assetId);
  callRead "tokenPermitContract.nonces" tokenPermitContract
    (call_nonces (toString address)).

Definition getAssetAllowance (self : Contracts) (assetId : Z) (address : EthAddress)
    : Settled Z :=
  contract ← property "allowance" (index (erc20Contracts self) assetId);
  callRead "this.erc20Contracts[assetId].allowance" contract
    (call_allowance (toString address) (toString (rollupContractAddress self))).

Definition decodeBlock (tx : Tx.t) : Settled Block.t :=
  result ← parseTransaction (Tx.data tx);
  let rollupProofData := Buffer.fromHex (dropPrefix2 (args_proofData result)) in
  let viewingKeysData := Buffer.fromHex (dropPrefix2 (args_viewingKeys result)) in
  rollupId ← getRollupIdFromBuffer rollupProofData;
  rollupSize ← getRollupSizeFromBuffer rollupProofData;
  Resolved {| Block.created := (λ seconds, seconds * 1000) <$> Tx.timestamp tx;
              Block.txHash := Buffer.fromHex (dropPrefix2 (Tx.hash tx));
              Block.rollupProofData := rollupProofData;
              Block.viewingKeysData := viewingKeysData;
              Block.rollupId := rollupId;
              Block.rollupSize := rollupSize |}.

(** [{ ...tx, timestamp }]. *)
Definition withTimestamp (tx : Tx.t) (timestamp : Z) : Tx.t :=
  {| Tx.hash := Tx.hash tx;
     Tx.data := Tx.data tx;
     Tx.confirmations := Tx.confirmations tx;
     Tx.blockNumber := Tx.blockNumber tx;
     Tx.timestamp := Some timestamp |}.

(** [txOrder] and [blockOrder] are the completion orders of the two
    [Promise.all] fan-outs. *)
Definition getRollupBlocksFrom (self : Contracts) (rollupId minConfirmations : Z)
    (txOrder blockOrder : list nat) : Settled (list Block.t) :=
  let rollupFilter := RollupProcessed (Some rollupId) in
  found ← queryFilter (rollupProcessor self) rollupFilter None;
  match found with
  | [] => Resolved []
  | rollupEvent :: _ =>
      let filter_ := RollupProcessed None in
      rollupEvents ← queryFilter (rollupProcessor self) filter_
                       (Some (Event.blockNumber rollupEvent));
      fetched ← Promise_all txOrder (getTransaction <$> rollupEvents);
      let txs := filter (λ tx, minConfirmations ≤ Tx.confirmations tx) fetched in
      blocks ← Promise_all blockOrder ((λ tx, getBlock (Tx.blockNumber tx)) <$> txs);
      mapM id
        (imap (λ i tx,
           block ← member (blocks !! i);
           decodeBlock (withTimestamp tx (EthBlock.timestamp block))) txs)
  end.

(** The events [getRollupBlocksFrom] works from: those from the block of
    the first event of [rollupId] on, none when there is no such event. *)
Definition rollupEventsFrom (self : Contracts) (rollupId : Z) : Settled (list Event.t) :=
  found ← queryFilter (rollupProcessor self) (RollupProcessed (Some rollupId)) None;
  match found with
  | [] => Resolved []
  | rollupEvent :: _ =>
      queryFilter (rollupProcessor self) (RollupProcessed None)
        (Some (Event.blockNumber rollupEvent))
  end.

(** ** Notions the properties are stated with *)

(** The callback of the last [map]: block [i] supplies the timestamp of
    transaction [i]. *)
Definition stamped (tx : Tx.t) (block : EthBlock.t) : Settled Block.t :=
  decodeBlock (withTimestamp tx (EthBlock.timestamp block)).

Definition retainedBy (minConfirmations : Z) (fetched : list Tx.t) : list Tx.t :=
  filter (λ tx, minConfirmations ≤ Tx.confirmations tx) fetched.

(** One returned block: the decoding of the transaction of an event, with
    the timestamp of the block that contains that transaction. *)
Definition reconstructs (minConfirmations : Z) (e : Event.t) (blk : Block.t) : Prop :=
  ∃ tx block,
    getTransaction e = Resolved tx ∧
    minConfirmations ≤ Tx.confirmations tx ∧
    getBlock (Tx.blockNumber tx) = Resolved block ∧
    decodeBlock (withTimestamp tx (EthBlock.timestamp block)) = Resolved blk ∧
    Block.created blk = Some (EthBlock.timestamp block * 1000).

Definition isPermitCall (call : RollupCall) : bool :=
  match call with
  | call_depositPendingFundsPermit _ _ _ _ _ _ _ _ _ => true
  | _ => false
  end.

Definition isPlainDepositCall (call : RollupCall) : bool :=
  match call with
  | call_depositPendingFunds _ _ _ => true
  | _ => false
  end.

(** The states an object can be in: freshly constructed, or after any of
    its methods that write. *)
Inductive reachable : State → Prop :=
  | reachable_new rollupContractAddress :
      reachable {| this := constructor rollupContractAddress; issued := [] |}
  | reachable_init st order :
      reachable st → reachable (init order st).2
  | reachable_setSupportedAsset st assetAddress supportsPermit signingAddress :
      reachable st →
      reachable (setSupportedAsset assetAddress supportsPermit signingAddress st).2
  | reachable_sendRollupProof st proofData signatures sigIndexes viewingKeys
      signingAddress gasLimit :
      reachable st →
      reachable (sendRollupProof proofData signatures sigIndexes viewingKeys
                   signingAddress gasLimit st).2
  | reachable_depositPendingFunds st assetId amount depositorAddress permitArgs :
      reachable st →
      reachable (depositPendingFunds assetId amount depositorAddress permitArgs st).2.

(** The contract object the writing methods build for the rollup processor. *)
Definition processorAs (st : State) (signer : SignerOrProvider) : Contract :=
  mkContract (toString (rollupContractAddress (this st))) RollupABI signer.

Definition depositCall (st : State) (assetId amount : Z) (depositorAddress : EthAddress)
    (permitArgs : option PermitArgs) : RollupCall :=
  match permitArgs with
  | Some permitArgs =>
      call_depositPendingFundsPermit assetId amount (toString depositorAddress)
        (address (rollupProcessor (this st)))
        (approvalAmount permitArgs) (deadline permitArgs)
        (v (signature permitArgs)) (r (signature permitArgs)) (s (signature permitArgs))
  | None => call_depositPendingFunds assetId amount (toString depositorAddress)
  end.

End Contracts.

(** ** A concrete chain

    Three rollups were processed, in blocks 10, 11 and 12; the oldest
    transaction has 10 confirmations, the next 5 and the newest 1. The call
    data of a transaction is taken to be its proof data, whose first two
    bytes hold the rollup id and the rollup size. *)
Module Scenario.

Definition mkEvent (blockNumber rollupId : Z) (transactionHash : string) : Event.t :=
  {| Event.blockNumber := blockNumber;
     Event.rollupId := rollupId;
     Event.transactionHash := transactionHash |}.

Definition mkTx (hash data : string) (confirmations blockNumber : Z) : Tx.t :=
  {| Tx.hash := hash;
     Tx.data := data;
     Tx.confirmations := confirmations;
     Tx.blockNumber := Some blockNumber;
     Tx.timestamp := None |}.

Definition event0 : Event.t := mkEvent 10 0 "0xa0".
Definition event1 : Event.t := mkEvent 11 1 "0xa1".
Definition event2 : Event.t := mkEvent 12 2 "0xa2".

Definition tx0 : Tx.t := mkTx "0xa0" "0x0004" 10 10.
Definition tx1 : Tx.t := mkTx "0xa1" "0x0104" 5 11.
Definition tx2 : Tx.t := mkTx "0xa2" "0x0204" 1 12.

Definition ledger : list (Event.t * Tx.t) :=
  [(event0, tx0); (event1, tx1); (event2, tx2)].

Definition matches (filter_ : EventFilter) (fromBlock : option Z) (e : Event.t) : bool :=
  match filter_ with
  | RollupProcessed (Some rollupId) => Event.rollupId e =? rollupId
  | RollupProcessed None => true
  end &&
  match fromBlock with
  | Some b => b <=? Event.blockNumber e
  | None => true
  end.

Definition byteAt (offset : nat) (buf : Buffer.t) : Settled Z :=
  match buf !! offset with
  | Some b => Resolved (Z.of_N (Byte.to_N b))
  | None => Rejected (TypeError "offset out of range")
  end.

Definition submitted : Tx.t :=
  {| Tx.hash := "0x" ++ Buffer.toHex (replicate 32 xab);
     Tx.data := "0x";
     Tx.confirmations := 0;
     Tx.blockNumber := None;
     Tx.timestamp := None |}.

Definition env : Environment :=
  {| EthAddress := string;
     toString := id;
     getRollupIdFromBuffer := byteAt 0;
     getRollupSizeFromBuffer := byteAt 1;
     parseTransaction := λ data,
       Resolved {| args_proofData := data; args_viewingKeys := "0x" |};
     queryFilter := λ _ filter_ fromBlock,
       Resolved (List.filter (matches filter_ fromBlock) (ledger.*1));
     getTransaction := λ e,
       match List.find (λ row, String.eqb (Event.transactionHash row.1)
                                 (Event.transactionHash e)) ledger with
       | Some row => Resolved row.2
       | None => Rejected (ProviderError "transaction not found")
       end;
     getBlock := λ blockTag,
       match blockTag with
       | Some n => Resolved {| EthBlock.timestamp := 1600000000 + 15 * n |}
       | None => Rejected (ProviderError "no block tag")
       end;
     sendTransaction := λ _ _, Resolved submitted;
     read_getSupportedAssets := λ _, Resolved ["0xe0"%string; "0xe1"%string];
     read_getAssetPermitSupport := λ _ assetId, Resolved (assetId =? 1);
     readErc20 := λ contract _,
       Resolved (match interface contract with ERC20PermitABI => 7 | _ => 3 end) |}.

Definition contracts : Contracts (Env := env) := constructor (Env := env) "0xc0"%string.

Definition start : State (Env := env) := {| this := contracts; issued := [] |}.

(** The blocks of rollups 1 and 2, as the reconstructor should return them. *)
Definition blocksFrom1 : list Block.t :=
  [ {| Block.created := Some 1600000165000;
       Block.txHash := [xa1];
       Block.rollupProofData := [x01; x04];
       Block.viewingKeysData := [];
       Block.rollupId := 1;
       Block.rollupSize := 4 |};
    {| Block.created := Some 1600000180000;
       Block.txHash := [xa2];
       Block.rollupProofData := [x02; x04];
       Block.viewingKeysData := [];
       Block.rollupId := 2;
       Block.rollupSize := 4 |} ].

(** The cache after [init] and the registration of a third asset. *)
Definition registered : State (Env := env) :=
  (setSupportedAsset (Env := env) "0xe2"%string true None
     (init (Env := env) [1%nat; 0%nat] start).2).2.

End Scenario.

(** ** Further methods of [Contracts] *)

(** [EthAddress.fromString], the other half of barretenberg's address class;
    it may throw on a malformed string. *)
Class AddressParser `{Env : Environment} := {
  fromString : string → Settled EthAddress;
}.

Section Addresses.
Context `{Parser : AddressParser}.

Definition getSupportedAssets (self : Contracts) : Settled (list EthAddress) :=
  assetAddresses ← read_getSupportedAssets (rollupProcessor self);
  mapM fromString assetAddresses.

Definition getRollupContractAddress (self : Contracts) : EthAddress :=
  rollupContractAddress self.

Definition getTokenContractAddresses (self : Contracts) : Settled (list EthAddress) :=
  mapM (λ c, fromString (address c)) (erc20Contracts self).

End Addresses.

Section Notions.
Context `{Env : Environment}.

(** The handle [init] and [setSupportedAsset] build for an asset. *)
Definition assetHandle (assetAddress : string) (supportsPermit : bool) : Contract :=
  mkContract assetAddress (if supportsPermit then ERC20PermitABI else ERC20ABI) FromProvider.

(** What [getRollupBlocksFrom] does for one retained transaction: look up
    its block, then decode it with that block's timestamp. *)
Definition reconstructTx (tx : Tx.t) : Settled Block.t :=
  block ← getBlock (Tx.blockNumber tx);
  decodeBlock (withTimestamp tx (EthBlock.timestamp block)).

End Notions.

(** The concrete chain with an address parser that accepts every string,
    and the same chain during an outage of the transaction lookup for the
    newest rollup. *)
Module Outage.

Definition parser : AddressParser (Env := Scenario.env) :=
  {| fromString := λ str, Resolved (str : EthAddress (Environment := Scenario.env)) |}.

Definition env : Environment :=
  {| EthAddress := string;
     toString := id;
     getRollupIdFromBuffer := getRollupIdFromBuffer (Environment := Scenario.env);
     getRollupSizeFromBuffer := getRollupSizeFromBuffer (Environment := Scenario.env);
     parseTransaction := parseTransaction (Environment := Scenario.env);
     queryFilter := queryFilter (Environment := Scenario.env);
     getTransaction := λ e,
       if Event.rollupId e =? 2 then Rejected (ProviderError "timeout")
       else getTransaction (Environment := Scenario.env) e;
     getBlock := getBlock (Environment := Scenario.env);
     sendTransaction := λ _ _, Rejected (ProviderError "execution reverted");
     read_getSupportedAssets := read_getSupportedAssets (Environment := Scenario.env);
     read_getAssetPermitSupport := λ _ assetId,
       if assetId =? 1 then Rejected (ProviderError "timeout") else Resolved false;
     readErc20 := readErc20 (Environment := Scenario.env) |}.

Definition start : State (Env := env) :=
  {| this := constructor (Env := env) "0xc0"%string; issued := [] |}.

End Outage.

(** ** The send composer

    [SendComposer.compose] drives the SDK through key generation, proof
    creation and sending, and reports its progress to a state observer.
    The SDK, the key vault, the amounts and the observer are other modules:
    their calls are recorded in the order they are made, and what each
    returns or throws is an interface of the model. *)
Module SendComposer.

Inductive SendComposerPhase := GENERATING_KEY | CREATING_PROOF | SENDING_PROOF | DONE.

(** A thrown value, seen through [error?.message?.toString()]. *)
Record Exception := { message : option string }.

Inductive Outcome (A : Type) :=
  | Returned (value : A)
  | Threw (error : Exception).
Arguments Returned {A} value.
Arguments Threw {A} error.

Class Collaborators := {
  AccountId : Type;
  Address : Type;
  Amount : Type;
  AssetValue : Type;
  Provider : Type;
  PrivateKey : Type;
  Signer : Type;
  Controller : Type;
  toAssetValue : Amount → Outcome AssetValue;
  createSigningKeys : Provider → Outcome PrivateKey;
  createSchnorrSigner : PrivateKey → Outcome Signer;
  createTransferController :
    AccountId → Signer → AssetValue → AssetValue → AccountId → Outcome Controller;
  createWithdrawController :
    AccountId → Signer → AssetValue → AssetValue → Address → Outcome Controller;
  createProof : Controller → Outcome unit;
  send : Controller → Outcome unit;
  stateObs_clearError : Outcome unit;
  stateObs_setPhase : SendComposerPhase → Outcome unit;
  stateObs_error : option string → Outcome unit;
}.

Section Composer.
Context `{Sdk : Collaborators}.

Inductive Recipient :=
  | SEND (accountId : AccountId)
  | WIDTHDRAW (address : Address).

Record SendComposerPayload := {
  recipient : Recipient;
  targetAmount : Amount;
  feeAmount : Amount;
}.

Record SendComposerDeps := {
  accountId : AccountId;
  awaitCorrectProvider : Outcome Provider;
}.

(** The calls [compose] makes, as they appear in its trace. *)
Inductive Call :=
  | clearError
  | setPhase (phase : SendComposerPhase)
  | error (message : option string)
  | debug (error : Exception)
  | call_awaitCorrectProvider
  | call_createSigningKeys (provider : Provider)
  | call_createSchnorrSigner (privateKey : PrivateKey)
  | call_toAssetValue (amount : Amount)
  | call_createTransferController (accountId : AccountId) (signer : Signer)
      (value fee : AssetValue) (to : AccountId)
  | call_createWithdrawController (accountId : AccountId) (signer : Signer)
      (value fee : AssetValue) (to : Address)
  | call_createProof (controller : Controller)
  | call_send (controller : Controller).

(** Code that makes calls and may throw: it extends the trace it is given. *)
Definition Step (A : Type) : Type := list Call → Outcome A * list Call.

Global Instance Step_ret : MRet Step := λ A a trace, (Returned a, trace).
Global Instance Step_bind : MBind Step := λ A B f m trace,
  match m trace with
  | (Returned a, trace') => f a trace'
  | (Threw e, trace') => (Threw e, trace')
  end.

Definition perform {A} (call : Call) (outcome : Outcome A) : Step A :=
  λ trace, (outcome, trace ++ [call]).

(** [try { body } catch (error) { handler }]. *)
Definition tryCatch {A} (body : Step A) (handler : Exception → Step A) : Step A :=
  λ trace,
    match body trace with
    | (Returned a, trace') => (Returned a, trace')
    | (Threw e, trace') => handler e trace'
    end.

Definition createController (payload : SendComposerPayload) (deps : SendComposerDeps)
    (signer : Signer) : Step Controller :=
  match recipient payload with
  | SEND to =>
      value ← perform (call_toAssetValue (targetAmount payload))
                (toAssetValue (targetAmount payload));
      fee ← perform (call_toAssetValue (feeAmount payload))
              (toAssetValue (feeAmount payload));
      perform (call_createTransferController (accountId deps) signer value fee to)
        (createTransferController (accountId deps) signer value fee to)
  | WIDTHDRAW to =>
      value ← perform (call_toAssetValue (targetAmount payload))
                (toAssetValue (targetAmount payload));
      fee ← perform (call_toAssetValue (feeAmount payload))
              (toAssetValue (feeAmount payload));
      perform (call_createWithdrawController (accountId deps) signer value fee to)
        (createWithdrawController (accountId deps) signer value fee to)
  end.

(** [clearError] is called before the [try]; everything else is inside it.
    The [debug] logger of the handler is recorded and taken not to throw. *)
Definition compose (payload : SendComposerPayload) (deps : SendComposerDeps) : Step bool :=
  _ ← perform clearError stateObs_clearError;
  tryCatch
    (_ ← perform (setPhase GENERATING_KEY) (stateObs_setPhase GENERATING_KEY);
     provider ← perform call_awaitCorrectProvider (awaitCorrectProvider deps);
     privateKey ← perform (call_createSigningKeys provider) (createSigningKeys provider);
     signer ← perform (call_createSchnorrSigner privateKey) (createSchnorrSigner privateKey);
     _ ← perform (setPhase CREATING_PROOF) (stateObs_setPhase CREATING_PROOF);
     controller ← createController payload deps signer;
     _ ← perform (call_createProof controller) (createProof controller);
     _ ← perform (setPhase SENDING_PROOF) (stateObs_setPhase SENDING_PROOF);
     _ ← perform (call_send controller) (send controller);
     _ ← perform (setPhase DONE) (stateObs_setPhase DONE);
     mret true)
    (λ thrown,
       _ ← perform (debug thrown) (Returned ());
       _ ← perform (error (message thrown)) (stateObs_error (message thrown));
       mret false).

(** The phases announced in a trace, in order. *)
Definition phasesOf (trace : list Call) : list SendComposerPhase :=
  omap (λ call, match call with setPhase phase => Some phase | _ => None end) trace.

Definition allPhases : list SendComposerPhase :=
  [GENERATING_KEY; CREATING_PROOF; SENDING_PROOF; DONE].

(** What a recorded call threw, if it threw. *)
Definition answerOf {A} (outcome : Outcome A) : option Exception :=
  match outcome with
  | Returned _ => None
  | Threw e => Some e
  end.

Definition thrownBy (deps : SendComposerDeps) (call : Call) : option Exception :=
  match call with
  | clearError => answerOf stateObs_clearError
  | setPhase phase => answerOf (stateObs_setPhase phase)
  | error message => answerOf (stateObs_error message)
  | debug _ => None
  | call_awaitCorrectProvider => answerOf (awaitCorrectProvider deps)
  | call_createSigningKeys provider => answerOf (createSigningKeys provider)
  | call_createSchnorrSigner privateKey => answerOf (createSchnorrSigner privateKey)
  | call_toAssetValue amount => answerOf (toAssetValue amount)
  | call_createTransferController accountId signer value fee to =>
      answerOf (createTransferController accountId signer value fee to)
  | call_createWithdrawController accountId signer value fee to =>
      answerOf (createWithdrawController accountId signer value fee to)
  | call_createProof controller => answerOf (createProof controller)
  | call_send controller => answerOf (send controller)
  end.

End Composer.

(** A run in which every collaborator answers, and one in which sending
    fails. *)
Definition working : Collaborators :=
  {| AccountId := string;
     Address := string;
     Amount := Z;
     AssetValue := Z;
     Provider := unit;
     PrivateKey := Buffer.t;
     Signer := Buffer.t;
     Controller := string;
     toAssetValue := λ amount, Returned amount;
     createSigningKeys := λ _, Returned [x01];
     createSchnorrSigner := λ privateKey, Returned privateKey;
     createTransferController := λ _ _ _ _ _, Returned "transfer"%string;
     createWithdrawController := λ _ _ _ _ _, Returned "withdraw"%string;
     createProof := λ _, Returned ();
     send := λ _, Returned ();
     stateObs_clearError := Returned ();
     stateObs_setPhase := λ _, Returned ();
     stateObs_error := λ _, Returned () |}.

Definition sendFails : Collaborators :=
  {| AccountId := string;
     Address := string;
     Amount := Z;
     AssetValue := Z;
     Provider := unit;
     PrivateKey := Buffer.t;
     Signer := Buffer.t;
     Controller := string;
     toAssetValue := λ amount, Returned amount;
     createSigningKeys := λ _, Returned [x01];
     createSchnorrSigner := λ privateKey, Returned privateKey;
     createTransferController := λ _ _ _ _ _, Returned "transfer"%string;
     createWithdrawController := λ _ _ _ _ _, Returned "withdraw"%string;
     createProof := λ _, Returned ();
     send := λ _, Threw {| message := Some "rejected by server"%string |};
     stateObs_clearError := Returned ();
     stateObs_setPhase := λ _, Returned ();
     stateObs_error := λ _, Returned () |}.

Definition transferPayload (Sdk : Collaborators) (to : AccountId) (value fee : Amount)
    : SendComposerPayload :=
  {| recipient := SEND to; targetAmount := value; feeAmount := fee |}.

Definition workingDeps : SendComposerDeps (Sdk := working) :=
  @Build_SendComposerDeps working "alice"%string (Returned ()).

Definition sendFailsDeps : SendComposerDeps (Sdk := sendFails) :=
  @Build_SendComposerDeps sendFails "alice"%string (Returned ()).

End SendComposer.

(** * Properties *)

(** ** The definitions at work *)

Example slice_from_the_end : Buffer.slice [x01; x02; x03] (-1) None = [x03].
Proof. reflexivity. Qed.

Example slice_of_empty : Buffer.slice [] (-1) None = [].
Proof. reflexivity. Qed.

Example slice_clamps : Buffer.slice [x01; x02; x03] 1 (Some 64) = [x02; x03].
Proof. reflexivity. Qed.

Example fromHex_stops_at_bad_digit : Buffer.fromHex "a0zz11" = [xa0].
Proof. reflexivity. Qed.

Example fromHex_drops_odd_digit : Buffer.fromHex "a0b" = [xa0].
Proof. reflexivity. Qed.

Example toHex_bytes : Buffer.toHex [x00; x1b; xff] = "001bff"%string.
Proof. reflexivity. Qed.

Example paddedSignature_short : paddedSignature [x01; x02] = [x01; x02] ++ replicate 31 x00 ++ [x02].
Proof. reflexivity. Qed.

Example Promise_all_out_of_order :
  Promise_all [2; 0; 1]%nat [Resolved 10; Resolved 20; Resolved 30] = Resolved [10; 20; 30].
Proof. reflexivity. Qed.

Example Promise_all_first_rejection :
  Promise_all [2; 0; 1]%nat
    [Rejected (ProviderError "first"); Resolved 20; Rejected (ProviderError "last")] =
  Rejected (ProviderError "last").
Proof. reflexivity. Qed.

Example init_fills_cache :
  erc20Contracts (this (init (Env := Scenario.env) [1%nat; 0%nat] Scenario.start).2) =
  [mkContract "0xe0" ERC20ABI FromProvider; mkContract "0xe1" ERC20PermitABI FromProvider].
Proof. reflexivity. Qed.

Example reconstructed_blocks :
  getRollupBlocksFrom (Env := Scenario.env) Scenario.contracts 1 0 [] [] =
  Resolved Scenario.blocksFrom1.
Proof. reflexivity. Qed.

(** ** Facts about buffers and the encoder *)

Lemma slice_prefix (buf : Buffer.t) (n : nat) :
  (n <= length buf)%nat →
  Buffer.slice buf 0 (Some (Z.of_nat n)) = take n buf.
Proof.
  intros Hn. unfold Buffer.slice, Buffer.clamp. simpl default.
  replace (0 <? 0) with false by reflexivity.
  destruct (Z.of_nat n <? 0) eqn:Hneg; [apply Z.ltb_lt in Hneg; lia|].
  rewrite Z.min_l by lia. rewrite Z.min_l by lia.
  rewrite Z.sub_0_r, Nat2Z.id. reflexivity.
Qed.

Lemma slice_last (buf : Buffer.t) :
  (0 < length buf)%nat →
  Buffer.slice buf (-1) None = drop (length buf - 1) buf.
Proof.
  intros Hlen. unfold Buffer.slice, Buffer.clamp. simpl default.
  replace (-1 <? 0) with true by reflexivity.
  destruct (Z.of_nat (length buf) <? 0) eqn:Hneg; [apply Z.ltb_lt in Hneg; lia|].
  rewrite Z.max_l by lia. rewrite Z.min_l by lia.
  replace (Z.to_nat (Z.of_nat (length buf) + -1)) with (length buf - 1)%nat by lia.
  replace (Z.to_nat (Z.of_nat (length buf) - (Z.of_nat (length buf) + -1))) with 1%nat by lia.
  apply take_ge. rewrite length_drop. lia.
Qed.

Lemma paddedSignature_65 (sig : Buffer.t) :
  length sig = 65%nat →
  paddedSignature sig = take 64 sig ++ replicate 31 x00 ++ drop 64 sig.
Proof.
  intros Hlen. unfold paddedSignature, Buffer.concat, Buffer.alloc.
  change (Some 64) with (Some (Z.of_nat 64)).
  change (Some 64) with (Some (Z.of_nat 64)).
  rewrite (slice_prefix sig 64) by lia.
  rewrite slice_last by lia. rewrite Hlen. simpl. rewrite app_nil_r. reflexivity.
Qed.

Lemma paddedSignature_length (sig : Buffer.t) :
  length sig = 65%nat → length (paddedSignature sig) = 96%nat.
Proof.
  intros Hlen. rewrite paddedSignature_65 by done.
  rewrite !length_app, length_take, length_replicate, length_drop. lia.
Qed.

Lemma solidityFormatSignatures_app (xs ys : list Buffer.t) :
  solidityFormatSignatures (xs ++ ys) =
  solidityFormatSignatures xs ++ solidityFormatSignatures ys.
Proof.
  unfold solidityFormatSignatures, Buffer.concat.
  rewrite map_app. apply concat_app.
Qed.

Lemma solidityFormatSignatures_cons (x : Buffer.t) (xs : list Buffer.t) :
  solidityFormatSignatures (x :: xs) = paddedSignature x ++ solidityFormatSignatures xs.
Proof. reflexivity. Qed.

Lemma solidityFormatSignatures_length (sigs : list Buffer.t) :
  Forall (λ sig, length sig = 65%nat) sigs →
  length (solidityFormatSignatures sigs) = (96 * length sigs)%nat.
Proof.
  induction 1 as [|sig sigs Hsig _ IH]; [reflexivity|].
  rewrite solidityFormatSignatures_cons, length_app, IH.
  rewrite paddedSignature_length by done. simpl. lia.
Qed.

(** C1. Every 65-byte signature of the input is encoded by
    [solidityFormatSignatures] as one 96-byte stretch of the result: its first
    64 bytes are the first 64 bytes of the signature (r and s), bytes 64 to 94
    are zero, and byte 95 is the signature's 65th byte (v). *)
Theorem solidityFormatSignatures_layout (signatures : list Buffer.t) (i : nat)
    (sig : Buffer.t) :
  signatures !! i = Some sig →
  length sig = 65%nat →
  ∃ encoding,
    solidityFormatSignatures signatures =
      solidityFormatSignatures (take i signatures) ++ encoding ++
      solidityFormatSignatures (drop (S i) signatures) ∧
    length encoding = 96%nat ∧
    take 64 encoding = take 64 sig ∧
    (∀ k, (64 ≤ k < 95)%nat → encoding !! k = Some x00) ∧
    encoding !! 95%nat = sig !! 64%nat.
Proof.
  intros Hi Hlen. exists (paddedSignature sig).
  split; [|split; [|split; [|split]]].
  - rewrite <- (take_drop_middle signatures i sig Hi) at 1.
    rewrite solidityFormatSignatures_app, solidityFormatSignatures_cons. reflexivity.
  - by apply paddedSignature_length.
  - rewrite paddedSignature_65 by done.
    apply take_app_length'. rewrite length_take. lia.
  - intros k Hk. rewrite paddedSignature_65 by done.
    rewrite lookup_app_r; rewrite length_take, Hlen; [|lia].
    rewrite lookup_app_l by (rewrite length_replicate; lia).
    apply lookup_replicate_2. lia.
  - rewrite paddedSignature_65 by done.
    rewrite lookup_app_r; rewrite length_take, Hlen; [|lia].
    rewrite lookup_app_r by (rewrite length_replicate; lia).
    rewrite length_replicate, lookup_drop. f_equal.
Qed.

Lemma solidityFormatSignatures_layout_witness :
  ∃ encoding,
    solidityFormatSignatures [replicate 65 x2a; replicate 64 x11 ++ [x1b]] =
      solidityFormatSignatures [replicate 65 x2a] ++ encoding ++ solidityFormatSignatures [] ∧
    length encoding = 96%nat ∧
    take 64 encoding = replicate 64 x11 ∧
    (∀ k, (64 ≤ k < 95)%nat → encoding !! k = Some x00) ∧
    encoding !! 95%nat = Some x1b.
Proof.
  apply (solidityFormatSignatures_layout
           [replicate 65 x2a; replicate 64 x11 ++ [x1b]] 1 (replicate 64 x11 ++ [x1b]));
    reflexivity.
Defined.

(** C2. Encoding [n] signatures of 65 bytes gives exactly [96 * n] bytes, the
    encoding of signature [i] is the stretch from [96 * i] to [96 * (i + 1)],
    and that stays so whatever signatures follow: the encoder distributes
    over concatenation of its input. *)
Theorem solidityFormatSignatures_concatenation (signatures : list Buffer.t) :
  Forall (λ sig, length sig = 65%nat) signatures →
  length (solidityFormatSignatures signatures) = (96 * length signatures)%nat ∧
  (∀ i sig more,
     signatures !! i = Some sig →
     take 96 (drop (96 * i) (solidityFormatSignatures (signatures ++ more))) =
       paddedSignature sig) ∧
  (∀ more,
     solidityFormatSignatures (signatures ++ more) =
       solidityFormatSignatures signatures ++ solidityFormatSignatures more).
Proof.
  intros Hall. split; [|split].
  - by apply solidityFormatSignatures_length.
  - intros i sig more Hi.
    assert (Hsig : length sig = 65%nat).
    { eapply (Forall_lookup_1 _ _ _ _ Hall Hi). }
    assert (Hpre : length (solidityFormatSignatures (take i signatures)) = (96 * i)%nat).
    { rewrite solidityFormatSignatures_length by (by apply Forall_take).
      rewrite length_take. apply lookup_lt_Some in Hi. lia. }
    rewrite <- (take_drop_middle signatures i sig Hi) at 1.
    rewrite <- app_assoc. rewrite solidityFormatSignatures_app.
    rewrite drop_app_length' by done.
    simpl app. rewrite solidityFormatSignatures_cons.
    apply take_app_length'. by rewrite paddedSignature_length.
  - intros more. apply solidityFormatSignatures_app.
Qed.

Lemma solidityFormatSignatures_concatenation_witness :
  length (solidityFormatSignatures [replicate 65 x2a; replicate 64 x11 ++ [x1b]]) = 192%nat ∧
  take 96 (drop 96 (solidityFormatSignatures
                      ([replicate 65 x2a; replicate 64 x11 ++ [x1b]] ++ [replicate 65 xff]))) =
    paddedSignature (replicate 64 x11 ++ [x1b]).
Proof.
  destruct (solidityFormatSignatures_concatenation
              [replicate 65 x2a; replicate 64 x11 ++ [x1b]]) as (Hlen & Hat & _).
  - repeat constructor.
  - split; [exact Hlen|].
    exact (Hat 1%nat (replicate 64 x11 ++ [x1b]) [replicate 65 xff] eq_refl).
Defined.

(** ** [Promise.all] joins by index *)

Section PromiseAll.
Context {A : Type}.
Implicit Types (vs : list A) (values : list (option A)) (order : list nat).

Lemma settleInOrder_fulfilled vs order values :
  slotsAgree vs values →
  ∃ values',
    settleInOrder (Resolved <$> vs) order values = Resolved values' ∧
    slotsAgree vs values' ∧
    (∀ i, (i < length vs)%nat →
       values !! i = Some (vs !! i) ∨ i ∈ order → values' !! i = Some (vs !! i)).
Proof.
  revert values. induction order as [|j order IH]; intros values [Hlen Hslots].
  - exists values. split; [done|]. split; [done|].
    intros i Hi [H|H]; [done|]. by apply elem_of_nil in H.
  - simpl. rewrite list_lookup_fmap. destruct (vs !! j) as [v|] eqn:Hj; simpl.
    + pose proof (lookup_lt_Some _ _ _ Hj) as Hjlt.
      destruct (IH (<[j := Some v]> values)) as (values' & Hrun & Hagree & Hkeep).
      { split; [by rewrite length_insert|].
        intros i Hi. destruct (decide (j = i)) as [->|Hne].
        - right. rewrite list_lookup_insert_eq by lia. by rewrite Hj.
        - rewrite list_lookup_insert_ne by done. by apply Hslots. }
      exists values'. split; [done|]. split; [done|].
      intros i Hi Hcase. apply Hkeep; [done|].
      destruct (decide (j = i)) as [->|Hne].
      * left. rewrite list_lookup_insert_eq by lia. by rewrite Hj.
      * rewrite list_lookup_insert_ne by done.
        destruct Hcase as [H|H]; [by left|].
        apply elem_of_cons in H as [->|H]; [done|by right].
    + destruct (IH values) as (values' & Hrun & Hagree & Hkeep); [done|].
      exists values'. split; [done|]. split; [done|].
      intros i Hi Hcase. apply Hkeep; [done|].
      destruct Hcase as [H|H]; [by left|].
      apply elem_of_cons in H as [->|H]; [|by right].
      apply lookup_ge_None in Hj. lia.
Qed.

Lemma omap_id_Some vs : omap (M := list) id (Some <$> vs) = vs.
Proof. induction vs as [|v vs IH]; [done|]. csimpl. by rewrite IH. Qed.

(** When every promise is fulfilled, the join yields the values in the order
    of the promises, whatever the completion order. *)
Lemma Promise_all_fulfilled order vs :
  Promise_all order (Resolved <$> vs) = Resolved vs.
Proof.
  unfold Promise_all. rewrite length_fmap.
  destruct (settleInOrder_fulfilled vs (order ++ seq 0 (length vs))
              (replicate (length vs) None)) as (values' & -> & [Hlen _] & Hall).
  { split; [by rewrite length_replicate|].
    intros i Hi. left. by apply lookup_replicate_2. }
  f_equal. rewrite <- (omap_id_Some vs). f_equal.
  apply list_eq. intros i. rewrite list_lookup_fmap.
  destruct (decide (i < length vs)%nat) as [Hi|Hi].
  - rewrite Hall; [|done|].
    + destruct (vs !! i) eqn:Hv; [done|].
      apply lookup_ge_None in Hv. lia.
    + right. apply elem_of_app. right. apply elem_of_seq. lia.
  - rewrite (proj2 (lookup_ge_None values' i)) by lia.
    by rewrite (proj2 (lookup_ge_None vs i)) by lia.
Qed.

Lemma settleInOrder_no_rejection (promises : list (Settled A)) order values values' :
  settleInOrder promises order values = Resolved values' →
  ∀ i e, i ∈ order → promises !! i ≠ Some (Rejected e).
Proof.
  revert values. induction order as [|j order IH]; intros values Hrun i e Hin.
  - by apply elem_of_nil in Hin.
  - simpl in Hrun. apply elem_of_cons in Hin as [->|Hin].
    + destruct (promises !! j) as [[v|e']|]; congruence.
    + destruct (promises !! j) as [[v|e']|]; [eauto|congruence|eauto].
Qed.

(** The join is fulfilled only if every promise was, and then with exactly
    their values in promise order. *)
Lemma Promise_all_inv order (promises : list (Settled A)) vs :
  Promise_all order promises = Resolved vs → promises = Resolved <$> vs.
Proof.
  intros Hall.
  assert (Hok : ∀ i p, promises !! i = Some p → ∃ v, p = Resolved v).
  { intros i p Hi. destruct p as [v|e]; [by eexists|]. exfalso.
    unfold Promise_all in Hall.
    destruct (settleInOrder promises _ _) as [values'|] eqn:Hrun; [|done].
    eapply (settleInOrder_no_rejection _ _ _ _ Hrun i e); [|done].
    apply elem_of_app. right. apply elem_of_seq.
    apply lookup_lt_Some in Hi. lia. }
  assert (Hshape : promises = Resolved <$> omap fulfilledValue promises).
  { clear Hall. induction promises as [|p promises IH]; [done|].
    destruct (Hok 0%nat p eq_refl) as [v ->]. csimpl. f_equal.
    apply IH. intros i q Hi. by apply (Hok (S i)). }
  rewrite Hshape in Hall. rewrite Promise_all_fulfilled in Hall.
  by injection Hall as <-.
Qed.

Lemma Promise_all_order_irrelevant order order' (promises : list (Settled A)) vs :
  Promise_all order promises = Resolved vs →
  Promise_all order' promises = Resolved vs.
Proof. intros ->%Promise_all_inv. apply Promise_all_fulfilled. Qed.

End PromiseAll.

(** ** The block reconstructor *)

Section Reconstructor.
Context `{Env : Environment}.

Lemma mapM_Settled_cons {X Y} (f : X → Settled Y) (x : X) (l : list X) :
  mapM f (x :: l) =
  match f x with
  | Resolved y =>
      match mapM f l with
      | Resolved k => Resolved (y :: k)
      | Rejected e => Rejected e
      end
  | Rejected e => Rejected e
  end.
Proof. reflexivity. Qed.

Lemma mapM_Resolved {X Y} (f : X → Settled Y) (l : list X) (k : list Y) :
  mapM f l = Resolved k ↔ Forall2 (λ x y, f x = Resolved y) l k.
Proof.
  split.
  - revert k. induction l as [|x l IH]; intros k Hrun.
    + injection Hrun as <-. constructor.
    + rewrite mapM_Settled_cons in Hrun.
      destruct (f x) as [y|] eqn:Hx; [|done].
      destruct (mapM f l) as [k'|]; [|done].
      injection Hrun as <-. constructor; [done|by apply IH].
  - induction 1 as [|x y l k Hx _ IH]; [done|].
    by rewrite mapM_Settled_cons, Hx, IH.
Qed.

Lemma rejoin_by_index (txs : list Tx.t) (blocks : list EthBlock.t) :
  length txs = length blocks →
  mapM id (imap (λ i tx, block ← member (blocks !! i); stamped tx block) txs) =
  mapM (λ p, stamped p.1 p.2) (zip txs blocks).
Proof.
  revert blocks. induction txs as [|tx txs IH]; intros [|b blocks] Hlen;
    try done; try (simpl in Hlen; lia).
  rewrite imap_cons. simpl zip. rewrite !mapM_Settled_cons.
  rewrite <- IH by (simpl in Hlen; lia). reflexivity.
Qed.

(** What [getRollupBlocksFrom] computes once the first matching event is
    found and the lookups it fans out are fulfilled. *)
Lemma getRollupBlocksFrom_run self rollupId minConfirmations txOrder blockOrder
    rollupEvent rest rollupEvents fetched blocks :
  queryFilter (rollupProcessor self) (RollupProcessed (Some rollupId)) None =
    Resolved (rollupEvent :: rest) →
  queryFilter (rollupProcessor self) (RollupProcessed None)
    (Some (Event.blockNumber rollupEvent)) = Resolved rollupEvents →
  getTransaction <$> rollupEvents = Resolved <$> fetched →
  (λ tx, getBlock (Tx.blockNumber tx)) <$> retainedBy minConfirmations fetched =
    Resolved <$> blocks →
  getRollupBlocksFrom self rollupId minConfirmations txOrder blockOrder =
    mapM (λ p, stamped p.1 p.2) (zip (retainedBy minConfirmations fetched) blocks).
Proof.
  intros Hfirst Hall Htxs Hblocks. unfold getRollupBlocksFrom.
  rewrite Hfirst. simpl. rewrite Hall. simpl.
  rewrite Htxs, Promise_all_fulfilled. simpl.
  fold (retainedBy minConfirmations fetched).
  rewrite Hblocks, Promise_all_fulfilled. simpl.
  apply rejoin_by_index.
  apply (f_equal length) in Hblocks. by rewrite !length_fmap in Hblocks.
Qed.

Lemma getRollupBlocksFrom_inv self rollupId minConfirmations txOrder blockOrder out :
  getRollupBlocksFrom self rollupId minConfirmations txOrder blockOrder = Resolved out →
  (queryFilter (rollupProcessor self) (RollupProcessed (Some rollupId)) None = Resolved []
   ∧ out = []) ∨
  ∃ rollupEvent rest rollupEvents fetched blocks,
    queryFilter (rollupProcessor self) (RollupProcessed (Some rollupId)) None =
      Resolved (rollupEvent :: rest) ∧
    queryFilter (rollupProcessor self) (RollupProcessed None)
      (Some (Event.blockNumber rollupEvent)) = Resolved rollupEvents ∧
    getTransaction <$> rollupEvents = Resolved <$> fetched ∧
    (λ tx, getBlock (Tx.blockNumber tx)) <$> retainedBy minConfirmations fetched =
      Resolved <$> blocks ∧
    Forall2 (λ p blk, stamped p.1 p.2 = Resolved blk)
      (zip (retainedBy minConfirmations fetched) blocks) out.
Proof.
  intros Hrun. unfold getRollupBlocksFrom in Hrun.
  destruct (queryFilter _ (RollupProcessed (Some rollupId)) None)
    as [[|rollupEvent rest]|] eqn:Hfirst; simpl in Hrun; [|clear Hfirst|done].
  { left. split; [done|]. by injection Hrun as <-. }
  destruct (queryFilter _ (RollupProcessed None) _) as [rollupEvents|] eqn:Hall;
    simpl in Hrun; [|done].
  destruct (Promise_all txOrder _) as [fetched|] eqn:Htxs; simpl in Hrun; [|done].
  fold (retainedBy minConfirmations fetched) in Hrun.
  destruct (Promise_all blockOrder _) as [blocks|] eqn:Hblocks; simpl in Hrun; [|done].
  apply Promise_all_inv in Htxs. apply Promise_all_inv in Hblocks.
  right. exists rollupEvent, rest, rollupEvents, fetched, blocks.
  repeat split; try done.
  apply mapM_Resolved. rewrite <- rejoin_by_index; [done|].
  apply (f_equal length) in Hblocks. by rewrite !length_fmap in Hblocks.
Qed.

Lemma decodeBlock_fields (tx : Tx.t) (blk : Block.t) :
  decodeBlock tx = Resolved blk →
  Block.txHash blk = Buffer.fromHex (dropPrefix2 (Tx.hash tx)) ∧
  Block.created blk = (λ seconds, seconds * 1000) <$> Tx.timestamp tx.
Proof.
  unfold decodeBlock. destruct (parseTransaction _) as [result|]; simpl; [|done].
  destruct (getRollupIdFromBuffer _) as [rollupId|]; simpl; [|done].
  destruct (getRollupSizeFromBuffer _) as [rollupSize|]; simpl; [|done].
  by intros [= <-].
Qed.

Lemma fmap_eq_Forall2 {X Y Z'} (f : X → Z') (g : Y → Z') (l : list X) (k : list Y) :
  f <$> l = g <$> k → Forall2 (λ x y, f x = g y) l k.
Proof.
  revert k. induction l as [|x l IH]; intros [|y k] H; try done.
  injection H as Hx Hl. constructor; [done|by apply IH].
Qed.

Lemma retained_events minConfirmations (es : list Event.t) (fetched : list Tx.t)
    (blocks : list EthBlock.t) (out : list Block.t) :
  Forall2 (λ e tx, getTransaction e = Resolved tx) es fetched →
  Forall2 (λ tx b, getBlock (Tx.blockNumber tx) = Resolved b)
    (retainedBy minConfirmations fetched) blocks →
  Forall2 (λ p blk, stamped p.1 p.2 = Resolved blk)
    (zip (retainedBy minConfirmations fetched) blocks) out →
  ∃ retained,
    retained `sublist_of` es ∧ Forall2 (reconstructs minConfirmations) retained out.
Proof.
  unfold retainedBy. intros Htxs. revert blocks out.
  induction Htxs as [|e tx es fetched He _ IH]; intros blocks out Hblocks Hout.
  - rewrite filter_nil in Hout. simpl in Hout. inv Hout.
    exists []. split; [done|constructor].
  - rewrite filter_cons in Hblocks, Hout.
    destruct (decide (minConfirmations ≤ Tx.confirmations tx)) as [Hconf|Hconf].
    + inv Hblocks. simpl in Hout. inv Hout.
      destruct (IH _ _ ltac:(eassumption) ltac:(eassumption)) as (retained & Hsub & Hrec).
      exists (e :: retained). split; [by apply sublist_skip|].
      constructor; [|done]. eexists _, _. repeat split; try eassumption.
      match goal with H : stamped _ _ = Resolved _ |- _ =>
        unfold stamped in H; apply decodeBlock_fields in H as [_ ->] end.
      reflexivity.
    + destruct (IH _ _ Hblocks Hout) as (retained & Hsub & Hrec).
      exists retained. split; [by apply sublist_cons|done].
Qed.

Lemma StronglySorted_sublist {X} (R : relation X) (l k : list X) :
  l `sublist_of` k → StronglySorted R k → StronglySorted R l.
Proof.
  induction 1 as [|x l k Hsub IH|x l k Hsub IH]; intros Hsorted.
  - constructor.
  - apply StronglySorted_inv in Hsorted as [Hk Hall]. constructor; [by apply IH|].
    rewrite Forall_forall in Hall |- *.
    intros y Hy. apply Hall. by eapply elem_of_sublist.
  - apply StronglySorted_inv in Hsorted as [Hk _]. by apply IH.
Qed.

Lemma rollupEventsFrom_none self rollupId :
  queryFilter (rollupProcessor self) (RollupProcessed (Some rollupId)) None = Resolved [] →
  rollupEventsFrom self rollupId = Resolved [].
Proof. intros H. unfold rollupEventsFrom. by rewrite H. Qed.

Lemma rollupEventsFrom_some self rollupId rollupEvent rest rollupEvents :
  queryFilter (rollupProcessor self) (RollupProcessed (Some rollupId)) None =
    Resolved (rollupEvent :: rest) →
  queryFilter (rollupProcessor self) (RollupProcessed None)
    (Some (Event.blockNumber rollupEvent)) = Resolved rollupEvents →
  rollupEventsFrom self rollupId = Resolved rollupEvents.
Proof. intros H1 H2. unfold rollupEventsFrom. by rewrite H1. Qed.

(** C4. When the query for the event of [rollupId] finds none,
    [getRollupBlocksFrom] is fulfilled with the empty sequence: it does not
    reject, and it asks the provider nothing further. *)
Theorem getRollupBlocksFrom_unknown_rollup self rollupId minConfirmations
    txOrder blockOrder :
  queryFilter (rollupProcessor self) (RollupProcessed (Some rollupId)) None = Resolved [] →
  getRollupBlocksFrom self rollupId minConfirmations txOrder blockOrder = Resolved [].
Proof. intros Hnone. unfold getRollupBlocksFrom. by rewrite Hnone. Qed.

Lemma lookups_of_retained (txs : list Tx.t) :
  Forall (λ tx, ∃ block blk,
            getBlock (Tx.blockNumber tx) = Resolved block ∧
            stamped tx block = Resolved blk) txs →
  ∃ blocks out,
    (λ tx, getBlock (Tx.blockNumber tx)) <$> txs = Resolved <$> blocks ∧
    Forall2 (λ p blk, stamped p.1 p.2 = Resolved blk) (zip txs blocks) out ∧
    Forall2 (λ tx blk, ∃ block,
               getBlock (Tx.blockNumber tx) = Resolved block ∧
               stamped tx block = Resolved blk) txs out.
Proof.
  induction 1 as [|tx txs (block & blk & Hblock & Hblk) _ (blocks & out & Hb & Hz & Ho)].
  - by exists [], [].
  - exists (block :: blocks), (blk :: out). csimpl. rewrite Hblock, Hb.
    split; [done|]. split; constructor; eauto.
Qed.

(** C5. Of the transactions fetched for the events, [getRollupBlocksFrom]
    keeps exactly those whose confirmations are at least
    [minConfirmations]: when the lookups for the kept transactions are
    fulfilled, the result holds one block per kept transaction, in their
    order, decoded from that transaction and carrying its hash. *)
Theorem getRollupBlocksFrom_confirmation_filter self rollupId minConfirmations
    txOrder blockOrder rollupEvent rest rollupEvents fetched :
  queryFilter (rollupProcessor self) (RollupProcessed (Some rollupId)) None =
    Resolved (rollupEvent :: rest) →
  queryFilter (rollupProcessor self) (RollupProcessed None)
    (Some (Event.blockNumber rollupEvent)) = Resolved rollupEvents →
  getTransaction <$> rollupEvents = Resolved <$> fetched →
  Forall (λ tx, ∃ block blk,
            getBlock (Tx.blockNumber tx) = Resolved block ∧
            stamped tx block = Resolved blk)
    (filter (λ tx, minConfirmations ≤ Tx.confirmations tx) fetched) →
  ∃ out,
    getRollupBlocksFrom self rollupId minConfirmations txOrder blockOrder = Resolved out ∧
    Forall2 (λ tx blk, ∃ block,
               getBlock (Tx.blockNumber tx) = Resolved block ∧
               stamped tx block = Resolved blk)
      (filter (λ tx, minConfirmations ≤ Tx.confirmations tx) fetched) out ∧
    Block.txHash <$> out =
      (λ tx, Buffer.fromHex (dropPrefix2 (Tx.hash tx))) <$>
        filter (λ tx, minConfirmations ≤ Tx.confirmations tx) fetched.
Proof.
  intros Hfirst Hall Htxs Hkept.
  destruct (lookups_of_retained _ Hkept) as (blocks & out & Hblocks & Hzip & Hout).
  exists out. split; [|split; [done|]].
  - rewrite (getRollupBlocksFrom_run _ _ _ _ _ _ _ _ _ _ Hfirst Hall Htxs Hblocks).
    by apply mapM_Resolved.
  - clear -Hout. induction Hout as [|tx blk txs out (block & _ & Hblk) _ IH]; [done|].
    csimpl. rewrite IH. f_equal.
    unfold stamped in Hblk. by apply decodeBlock_fields in Hblk as [-> _].
Qed.

(** C6. A fulfilled result of [getRollupBlocksFrom] is the same for every
    completion order of the concurrent lookups. Its blocks are, one for one
    and in order, the decodings of a subsequence of the on-chain events,
    each from the transaction of its event and stamped with the time of
    the block containing that transaction. Hence, where the events come in
    ascending rollup id and a decoded block carries the id of its event,
    the result is in ascending rollup id. *)
Theorem getRollupBlocksFrom_order_preserved self rollupId minConfirmations
    txOrder blockOrder out :
  getRollupBlocksFrom self rollupId minConfirmations txOrder blockOrder = Resolved out →
  (∀ txOrder' blockOrder',
     getRollupBlocksFrom self rollupId minConfirmations txOrder' blockOrder' =
       Resolved out) ∧
  ∃ rollupEvents retained,
    rollupEventsFrom self rollupId = Resolved rollupEvents ∧
    retained `sublist_of` rollupEvents ∧
    Forall2 (reconstructs minConfirmations) retained out ∧
    ((∀ e blk, e ∈ rollupEvents → reconstructs minConfirmations e blk →
               Block.rollupId blk = Event.rollupId e) →
     StronglySorted Z.lt (Event.rollupId <$> rollupEvents) →
     StronglySorted Z.lt (Block.rollupId <$> out)).
Proof.
  intros Hrun.
  destruct (getRollupBlocksFrom_inv _ _ _ _ _ _ Hrun)
    as [[Hnone ->]|(rollupEvent & rest & rollupEvents & fetched & blocks &
                    Hfirst & Hall & Htxs & Hblocks & Hout)].
  - split; [intros; unfold getRollupBlocksFrom; by rewrite Hnone|].
    exists [], []. split; [by apply rollupEventsFrom_none|].
    split; [done|]. split; constructor.
  - split.
    { intros txOrder' blockOrder'.
      rewrite (getRollupBlocksFrom_run _ _ _ _ _ _ _ _ _ _ Hfirst Hall Htxs Hblocks).
      by apply mapM_Resolved. }
    destruct (retained_events minConfirmations rollupEvents fetched blocks out)
      as (retained & Hsub & Hrec); [by apply fmap_eq_Forall2..|done|].
    exists rollupEvents, retained.
    split; [by eapply rollupEventsFrom_some|]. split; [done|]. split; [done|].
    intros Hids Hsorted.
    assert (Heq : Block.rollupId <$> out = Event.rollupId <$> retained).
    { assert (Hin : ∀ e, e ∈ retained → e ∈ rollupEvents)
        by (intros e He; by eapply elem_of_sublist).
      clear -Hrec Hids Hin.
      induction Hrec as [|e blk retained out He _ IH]; [done|]. csimpl.
      rewrite IH by (intros e' He'; apply Hin; by right).
      f_equal. apply Hids; [apply Hin; by left|done]. }
    rewrite Heq. eapply StronglySorted_sublist; [|exact Hsorted].
    by apply fmap_sublist.
Qed.

End Reconstructor.

(** ** Submitting transactions and the asset cache *)

Section Submission.
Context `{Env : Environment}.

Ltac run_method :=
  unfold setSupportedAsset, sendRollupProof, depositPendingFunds, init,
    mbind, Method_bind, mret, Method_ret, getThis, invoke, pushErc20Contract;
  simpl.

Lemma setSupportedAsset_run st assetAddress supportsPermit signingAddress :
  let contract := processorAs st (signerFor signingAddress) in
  let call := call_setSupportedAsset (toString assetAddress) supportsPermit in
  let handle := mkContract (toString assetAddress)
                  (if supportsPermit then ERC20PermitABI else ERC20ABI) FromProvider in
  setSupportedAsset assetAddress supportsPermit signingAddress st =
  match sendTransaction contract call with
  | Resolved tx =>
      (Resolved (Buffer.fromHex (dropPrefix2 (Tx.hash tx))),
       {| this := {| rollupContractAddress := rollupContractAddress (this st);
                     rollupProcessor := rollupProcessor (this st);
                     erc20Contracts := erc20Contracts (this st) ++ [handle] |};
          issued := issued st ++ [(contract, call)] |})
  | Rejected e =>
      (Rejected e, {| this := this st; issued := issued st ++ [(contract, call)] |})
  end.
Proof. run_method. unfold processorAs. by destruct (sendTransaction _ _). Qed.

Lemma sendRollupProof_run st proofData signatures sigIndexes viewingKeys
    signingAddress gasLimit :
  let contract := processorAs st (signerFor signingAddress) in
  let call := call_processRollup ("0x" ++ Buffer.toHex proofData)
                (solidityFormatSignatures signatures) sigIndexes
                (Buffer.concat viewingKeys) gasLimit in
  sendRollupProof proofData signatures sigIndexes viewingKeys signingAddress gasLimit st =
  ((λ tx, Buffer.fromHex (dropPrefix2 (Tx.hash tx))) <$> sendTransaction contract call,
   {| this := this st; issued := issued st ++ [(contract, call)] |}).
Proof. run_method. unfold processorAs. by destruct (sendTransaction _ _). Qed.

Lemma depositPendingFunds_run st assetId amount depositorAddress permitArgs :
  let contract := processorAs st (SignerAddress (toString depositorAddress)) in
  let call := depositCall st assetId amount depositorAddress permitArgs in
  depositPendingFunds assetId amount depositorAddress permitArgs st =
  ((λ tx, Buffer.fromHex (dropPrefix2 (Tx.hash tx))) <$> sendTransaction contract call,
   {| this := this st; issued := issued st ++ [(contract, call)] |}).
Proof.
  run_method. unfold processorAs, depositCall.
  destruct permitArgs; by destruct (sendTransaction _ _).
Qed.

(** No method replaces the rollup processor handle or the address it was
    built from. *)
Lemma reachable_processor st :
  reachable st →
  rollupProcessor (this st) =
    mkContract (toString (rollupContractAddress (this st))) RollupABI FromProvider.
Proof.
  induction 1 as [addr|st order _ IH|st a p sa _ IH|st pd sg si vk sa gl _ IH
                  |st ai am da pa _ IH].
  - reflexivity.
  - unfold init. destruct (_ ≫= _); simpl; exact IH.
  - rewrite setSupportedAsset_run. destruct (sendTransaction _ _); simpl; exact IH.
  - rewrite sendRollupProof_run. simpl. exact IH.
  - rewrite depositPendingFunds_run. simpl. exact IH.
Qed.

(** C3. [depositPendingFunds] issues exactly one contract call. It is the
    permit call, carrying [approvalAmount], [deadline] and the signature's
    v, r and s, if and only if [permitArgs] is present, and the plain
    deposit call otherwise; in both cases the contract object is signed for
    by the depositor's address. *)
Theorem depositPendingFunds_call_shape st assetId amount depositorAddress permitArgs :
  ∃ call,
    issued (depositPendingFunds assetId amount depositorAddress permitArgs st).2 =
      issued st ++
      [(mkContract (toString (rollupContractAddress (this st))) RollupABI
          (SignerAddress (toString depositorAddress)), call)] ∧
    (isPermitCall call = true ↔ is_Some permitArgs) ∧
    (isPlainDepositCall call = true ↔ permitArgs = None) ∧
    match permitArgs with
    | Some permit =>
        ∃ spender,
          call = call_depositPendingFundsPermit assetId amount
                   (toString depositorAddress) spender
                   (approvalAmount permit) (deadline permit)
                   (v (signature permit)) (r (signature permit))
                   (s (signature permit))
    | None =>
        call = call_depositPendingFunds assetId amount (toString depositorAddress)
    end.
Proof.
  exists (depositCall st assetId amount depositorAddress permitArgs).
  rewrite depositPendingFunds_run. simpl. split; [done|].
  destruct permitArgs as [permit|]; simpl.
  - split; [split; eauto|]. split; [split; done|]. by eexists.
  - split; [split; [done|by intros [? ?]]|]. done.
Qed.

(** C7. [sendRollupProof] and [setSupportedAsset] send their transaction
    through the signer of [signingAddress] when one is given, and through
    the provider's signer number 0 otherwise. *)
Theorem signer_is_given_address_or_index_0 st proofData signatures sigIndexes
    viewingKeys gasLimit assetAddress supportsPermit signingAddress :
  let signer :=
    match signingAddress with
    | Some a => SignerAddress (toString a)
    | None => SignerIndex 0
    end in
  (∃ call,
     issued (sendRollupProof proofData signatures sigIndexes viewingKeys
               signingAddress gasLimit st).2 =
       issued st ++
       [(mkContract (toString (rollupContractAddress (this st))) RollupABI signer, call)]) ∧
  (∃ call,
     issued (setSupportedAsset assetAddress supportsPermit signingAddress st).2 =
       issued st ++
       [(mkContract (toString (rollupContractAddress (this st))) RollupABI signer, call)]).
Proof.
  split.
  - eexists. rewrite sendRollupProof_run. simpl. by destruct signingAddress.
  - eexists. rewrite setSupportedAsset_run.
    destruct (sendTransaction _ _); simpl; by destruct signingAddress.
Qed.

Lemma index_in_range {X} (xs : list X) (i : Z) :
  0 ≤ i < Z.of_nat (length xs) → ∃ x, index xs i = Some x ∧ xs !! Z.to_nat i = Some x.
Proof.
  intros Hi. unfold index.
  destruct (i <? 0) eqn:Hneg; [apply Z.ltb_lt in Hneg; lia|].
  destruct (lookup_lt_is_Some_2 xs (Z.to_nat i)) as [x Hx]; [lia|]. eauto.
Qed.

Lemma index_out_of_range {X} (xs : list X) (i : Z) :
  ¬ (0 ≤ i < Z.of_nat (length xs)) → index xs i = None.
Proof.
  intros Hi. unfold index.
  destruct (i <? 0) eqn:Hneg; [done|]. apply Z.ltb_ge in Hneg.
  apply lookup_ge_None. lia.
Qed.

(** C8, as amended. For an [assetId] inside the cache, [getAssetBalance] and
    [getAssetAllowance] are the provider's answer to the read made on the
    handle cached at that index, and so is [getUserNonce] when that handle
    has the permit interface; on a handle with the plain interface
    [getUserNonce] throws a local [TypeError], [nonces] not being a function
    of it, and makes no read. For an [assetId] outside the cache, and so for
    every [assetId] on a freshly constructed object, each of the three
    rejects with the local [TypeError] of reading its method off an
    undefined handle; nothing guards against it. *)
Theorem asset_reads_by_index self assetId holder :
  (0 ≤ assetId < Z.of_nat (length (erc20Contracts self)) →
   ∃ handle,
     erc20Contracts self !! Z.to_nat assetId = Some handle ∧
     (interface handle = ERC20ABI ∨ interface handle = ERC20PermitABI →
      getAssetBalance self assetId holder =
        readErc20 handle (call_balanceOf (toString holder)) ∧
      getAssetAllowance self assetId holder =
        readErc20 handle (call_allowance (toString holder)
                            (toString (rollupContractAddress self)))) ∧
     (interface handle = ERC20PermitABI →
      getUserNonce self assetId holder =
        readErc20 handle (call_nonces (toString holder))) ∧
     (interface handle = ERC20ABI →
      getUserNonce self assetId holder =
        Rejected (TypeError "tokenPermitContract.nonces is not a function"))) ∧
  (¬ (0 ≤ assetId < Z.of_nat (length (erc20Contracts self))) →
   getAssetBalance self assetId holder =
     Rejected (TypeError "Cannot read properties of undefined (reading 'balanceOf')") ∧
   getAssetAllowance self assetId holder =
     Rejected (TypeError "Cannot read properties of undefined (reading 'allowance')") ∧
   getUserNonce self assetId holder =
     Rejected (TypeError "Cannot read properties of undefined (reading 'nonces')")) ∧
  (∀ rollupContractAddress,
     getAssetBalance (constructor rollupContractAddress) assetId holder =
       Rejected (TypeError "Cannot read properties of undefined (reading 'balanceOf')") ∧
     getAssetAllowance (constructor rollupContractAddress) assetId holder =
       Rejected (TypeError "Cannot read properties of undefined (reading 'allowance')") ∧
     getUserNonce (constructor rollupContractAddress) assetId holder =
       Rejected (TypeError "Cannot read properties of undefined (reading 'nonces')")).
Proof.
  unfold getAssetBalance, getAssetAllowance, getUserNonce.
  split; [|split].
  - intros Hin. destruct (index_in_range _ _ Hin) as (handle & Hidx & Hlook).
    exists handle. rewrite Hidx. simpl. unfold callRead.
    split; [done|]. split; [|split].
    + by intros [->| ->].
    + by intros ->.
    + by intros ->.
  - intros Hout. by rewrite (index_out_of_range _ _ Hout).
  - intros addr. by rewrite index_out_of_range by (simpl; lia).
Qed.

(** C9. [setSupportedAsset] makes one request, the submission, and is
    fulfilled exactly when the provider answers it with a transaction,
    returning that transaction's hash: the confirmations and the block of
    the answer, and what the provider would answer to anything else, play no
    part, so nothing is waited for. A fulfilled call leaves the cache equal
    to the cache before it with one handle appended, the handle of the new
    asset, with the permit interface if and only if [supportsPermit]; every
    entry cached before keeps its position, and the rollup processor handle
    is untouched. *)
Theorem setSupportedAsset_appends st assetAddress supportsPermit signingAddress :
  let contract :=
    mkContract (toString (rollupContractAddress (this st))) RollupABI
      match signingAddress with
      | Some a => SignerAddress (toString a)
      | None => SignerIndex 0
      end in
  let call := call_setSupportedAsset (toString assetAddress) supportsPermit in
  let run := setSupportedAsset assetAddress supportsPermit signingAddress st in
  issued run.2 = issued st ++ [(contract, call)] ∧
  (∀ txHash,
     run.1 = Resolved txHash ↔
     ∃ tx, sendTransaction contract call = Resolved tx ∧
           txHash = Buffer.fromHex (dropPrefix2 (Tx.hash tx))) ∧
  (∀ txHash,
     run.1 = Resolved txHash →
     (∃ handle,
        erc20Contracts (this run.2) = erc20Contracts (this st) ++ [handle] ∧
        address handle = toString assetAddress ∧
        (interface handle = ERC20PermitABI ↔ supportsPermit = true) ∧
        (interface handle = ERC20ABI ↔ supportsPermit = false)) ∧
     (∀ i c, erc20Contracts (this st) !! i = Some c →
             erc20Contracts (this run.2) !! i = Some c) ∧
     rollupProcessor (this run.2) = rollupProcessor (this st) ∧
     rollupContractAddress (this run.2) = rollupContractAddress (this st)).
Proof.
  rewrite setSupportedAsset_run. unfold processorAs.
  replace (signerFor signingAddress) with
    (match signingAddress with
     | Some a => SignerAddress (toString a)
     | None => SignerIndex 0
     end) by reflexivity.
  simpl. destruct (sendTransaction _ _) as [tx|e] eqn:Hsend; simpl.
  - split; [done|]. split.
    + intros txHash. split.
      * intros [= <-]. by exists tx.
      * intros (tx' & Htx & ->). by injection Htx as <-.
    + intros txHash _. split; [|split; [|done]].
      * eexists. split; [reflexivity|]. split; [reflexivity|].
        destruct supportsPermit; simpl; split; split; done.
      * intros i c Hi. by apply lookup_app_l_Some.
  - split; [done|]. split; [|done].
    intros txHash. split; [done|]. intros (tx' & Htx & _). discriminate Htx.
Qed.

(** C10. In the permit call that [depositPendingFunds] issues, the spender
    is the address of the object's rollup processor handle, which is the
    address of the contract the call is sent to. No argument of the method
    supplies it. *)
Theorem depositPendingFunds_permit_spender st assetId amount depositorAddress permit :
  reachable st →
  ∃ target spender,
    issued (depositPendingFunds assetId amount depositorAddress (Some permit) st).2 =
      issued st ++
      [(target,
        call_depositPendingFundsPermit assetId amount (toString depositorAddress)
          spender (approvalAmount permit) (deadline permit)
          (v (signature permit)) (r (signature permit)) (s (signature permit)))] ∧
    spender = address (rollupProcessor (this st)) ∧
    spender = address target ∧
    spender = toString (rollupContractAddress (this st)).
Proof.
  intros Hreach. rewrite depositPendingFunds_run. simpl.
  eexists _, _. split; [reflexivity|].
  rewrite (reachable_processor st Hreach). by simpl.
Qed.

End Submission.

(** ** The properties on the concrete chain *)

Lemma getRollupBlocksFrom_unknown_rollup_witness :
  queryFilter (Environment := Scenario.env) (rollupProcessor Scenario.contracts)
    (RollupProcessed (Some 7)) None = Resolved [] ∧
  getRollupBlocksFrom (Env := Scenario.env) Scenario.contracts 7 5 [] [] = Resolved [].
Proof.
  split; [reflexivity|].
  apply (getRollupBlocksFrom_unknown_rollup (Env := Scenario.env) Scenario.contracts 7 5 [] []).
  reflexivity.
Defined.

(** Confirmations 10, 5 and 1 with [minConfirmations = 5]: the two
    transactions with 10 and 5 confirmations come back, the third does not. *)
Lemma getRollupBlocksFrom_confirmation_filter_witness :
  Tx.confirmations <$> [Scenario.tx0; Scenario.tx1; Scenario.tx2] = [10; 5; 1] ∧
  ∃ out,
    getRollupBlocksFrom (Env := Scenario.env) Scenario.contracts 0 5
      [2%nat; 0%nat; 1%nat] [1%nat; 0%nat] = Resolved out ∧
    length out = 2%nat ∧
    Block.txHash <$> out = [[xa0]; [xa1]].
Proof.
  split; [reflexivity|].
  destruct (getRollupBlocksFrom_confirmation_filter (Env := Scenario.env)
              Scenario.contracts 0 5 [2%nat; 0%nat; 1%nat] [1%nat; 0%nat]
              Scenario.event0 [] [Scenario.event0; Scenario.event1; Scenario.event2]
              [Scenario.tx0; Scenario.tx1; Scenario.tx2])
    as (out & Hrun & Hkept & Hhash); try reflexivity.
  - repeat constructor; eexists _, _; split; reflexivity.
  - exists out. split; [exact Hrun|]. split; [|exact Hhash].
    apply Forall2_length in Hkept. symmetry. exact Hkept.
Defined.

Lemma getRollupBlocksFrom_order_preserved_witness :
  (∀ txOrder blockOrder,
     getRollupBlocksFrom (Env := Scenario.env) Scenario.contracts 1 0 txOrder blockOrder =
       Resolved Scenario.blocksFrom1) ∧
  StronglySorted Z.lt (Block.rollupId <$> Scenario.blocksFrom1).
Proof.
  destruct (getRollupBlocksFrom_order_preserved (Env := Scenario.env)
              Scenario.contracts 1 0 [1%nat; 0%nat] [1%nat; 0%nat]
              Scenario.blocksFrom1 eq_refl)
    as (Hany & rollupEvents & retained & Hevents & _ & _ & Hsorted).
  split; [exact Hany|].
  vm_compute in Hevents. injection Hevents as <-.
  apply Hsorted.
  - intros e blk He (tx & block & Htx & _ & Hblock & Hdecode & _).
    apply elem_of_cons in He as [->|He];
      [|apply elem_of_cons in He as [->|He]; [|by apply elem_of_nil in He]];
      vm_compute in Htx; injection Htx as <-;
      vm_compute in Hblock; injection Hblock as <-;
      vm_compute in Hdecode; injection Hdecode as <-; reflexivity.
  - repeat constructor.
Defined.

Lemma asset_reads_by_index_witness :
  getAssetBalance (Env := Scenario.env) (this Scenario.registered) 2 "0xd0"%string =
    Resolved 7 ∧
  getUserNonce (Env := Scenario.env) (this Scenario.registered) 1 "0xd0"%string =
    Resolved 7 ∧
  getUserNonce (Env := Scenario.env) (this Scenario.registered) 0 "0xd0"%string =
    Rejected (TypeError "tokenPermitContract.nonces is not a function") ∧
  getAssetBalance (Env := Scenario.env) (this Scenario.registered) 3 "0xd0"%string =
    Rejected (TypeError "Cannot read properties of undefined (reading 'balanceOf')") ∧
  getUserNonce (Env := Scenario.env) Scenario.contracts 0 "0xd0"%string =
    Rejected (TypeError "Cannot read properties of undefined (reading 'nonces')").
Proof.
  destruct (asset_reads_by_index (Env := Scenario.env) (this Scenario.registered) 2
              "0xd0"%string) as (Hin2 & _ & _).
  destruct (asset_reads_by_index (Env := Scenario.env) (this Scenario.registered) 1
              "0xd0"%string) as (Hin1 & _ & _).
  destruct (asset_reads_by_index (Env := Scenario.env) (this Scenario.registered) 0
              "0xd0"%string) as (Hin0 & _ & _).
  destruct (asset_reads_by_index (Env := Scenario.env) (this Scenario.registered) 3
              "0xd0"%string) as (_ & Hout & _).
  destruct (asset_reads_by_index (Env := Scenario.env) Scenario.contracts 0
              "0xd0"%string) as (_ & _ & Hnew).
  split; [|split; [|split; [|split]]].
  - destruct Hin2 as (handle & Hhandle & Hreads & _); [vm_compute; by split|].
    vm_compute in Hhandle. injection Hhandle as <-.
    exact (proj1 (Hreads (or_intror eq_refl))).
  - destruct Hin1 as (handle & Hhandle & _ & Hnonce & _); [vm_compute; by split|].
    vm_compute in Hhandle. injection Hhandle as <-.
    exact (Hnonce eq_refl).
  - destruct Hin0 as (handle & Hhandle & _ & _ & Hnonce); [vm_compute; by split|].
    vm_compute in Hhandle. injection Hhandle as <-.
    exact (Hnonce eq_refl).
  - destruct Hout as (Hbalance & _); [|exact Hbalance].
    vm_compute. intros [_ Hlt]. discriminate Hlt.
  - exact (proj2 (proj2 (Hnew "0xc0"%string))).
Defined.

(** In range, yet no read: asset 0 was cached with the plain interface, the
    provider would answer a [nonces] read on its contract, and [getUserNonce]
    rejects locally all the same. *)
Lemma asset_reads_by_index_counterexample :
  0 ≤ 0 < Z.of_nat (length (erc20Contracts (this Scenario.registered))) ∧
  erc20Contracts (this Scenario.registered) !! 0%nat =
    Some (mkContract "0xe0" ERC20ABI FromProvider) ∧
  readErc20 (Environment := Scenario.env) (mkContract "0xe0" ERC20ABI FromProvider)
    (call_nonces "0xd0") = Resolved 3 ∧
  getUserNonce (Env := Scenario.env) (this Scenario.registered) 0 "0xd0"%string ≠
    readErc20 (Environment := Scenario.env) (mkContract "0xe0" ERC20ABI FromProvider)
      (call_nonces "0xd0") ∧
  ∀ nonce, getUserNonce (Env := Scenario.env) (this Scenario.registered) 0 "0xd0"%string ≠
           Resolved nonce.
Proof.
  split; [vm_compute; by split|]. split; [reflexivity|]. split; [reflexivity|].
  split; [|intros nonce]; vm_compute; intros H; discriminate H.
Qed.

(** The provider answers the submission with a transaction that has no
    confirmation and no block yet, and a lookup of that block would be
    rejected; the call is fulfilled and the handle cached all the same,
    behind the two handles cached before. *)
Lemma setSupportedAsset_appends_witness :
  Tx.confirmations Scenario.submitted = 0 ∧
  getBlock (Environment := Scenario.env) (Tx.blockNumber Scenario.submitted) =
    Rejected (ProviderError "no block tag") ∧
  (setSupportedAsset (Env := Scenario.env) "0xe2"%string true None
     (init (Env := Scenario.env) [1%nat; 0%nat] Scenario.start).2).1 =
    Resolved (replicate 32 xab) ∧
  (∃ handle,
     erc20Contracts (this Scenario.registered) =
       [mkContract "0xe0" ERC20ABI FromProvider;
        mkContract "0xe1" ERC20PermitABI FromProvider] ++ [handle] ∧
     address handle = "0xe2"%string ∧
     (interface handle = ERC20PermitABI ↔ true = true) ∧
     (interface handle = ERC20ABI ↔ true = false)) ∧
  erc20Contracts (this Scenario.registered) !! 0%nat =
    Some (mkContract "0xe0" ERC20ABI FromProvider) ∧
  erc20Contracts (this Scenario.registered) !! 1%nat =
    Some (mkContract "0xe1" ERC20PermitABI FromProvider).
Proof.
  destruct (setSupportedAsset_appends (Env := Scenario.env)
              (init (Env := Scenario.env) [1%nat; 0%nat] Scenario.start).2
              "0xe2"%string true None) as (_ & Hiff & Heffect).
  assert (Hrun : (setSupportedAsset (Env := Scenario.env) "0xe2"%string true None
                    (init (Env := Scenario.env) [1%nat; 0%nat] Scenario.start).2).1 =
                 Resolved (replicate 32 xab)).
  { apply Hiff. exists Scenario.submitted. split; reflexivity. }
  destruct (Heffect _ Hrun) as (Hhandle & Hkept & _).
  split; [reflexivity|]. split; [reflexivity|]. split; [exact Hrun|].
  split; [exact Hhandle|].
  split; [exact (Hkept 0%nat _ eq_refl)|exact (Hkept 1%nat _ eq_refl)].
Defined.

Lemma depositPendingFunds_permit_spender_witness :
  ∃ target spender,
    issued (depositPendingFunds (Env := Scenario.env) 1 50 "0xd0"%string
              (Some {| deadline := 1700000000;
                       approvalAmount := 50;
                       signature := {| v := [x1b];
                                       r := replicate 32 x11;
                                       s := replicate 32 x22 |} |})
              Scenario.registered).2 =
      issued Scenario.registered ++
      [(target,
        call_depositPendingFundsPermit 1 50 "0xd0" spender 50 1700000000
          [x1b] (replicate 32 x11) (replicate 32 x22))] ∧
    spender = "0xc0"%string ∧
    spender = address target ∧
    spender = "0xc0"%string.
Proof.
  apply (depositPendingFunds_permit_spender (Env := Scenario.env) Scenario.registered
           1 50 "0xd0"%string).
  apply (reachable_setSupportedAsset (Env := Scenario.env)).
  apply (reachable_init (Env := Scenario.env)).
  apply (reachable_new (Env := Scenario.env) "0xc0"%string).
Defined.

(** * Further properties *)

(** ** Hexadecimal text and raw bytes *)

Lemma fromHex_pair (hi lo : ascii) (rest : string) :
  Buffer.fromHex (String hi (String lo rest)) =
  match Buffer.hexDigit hi, Buffer.hexDigit lo with
  | Some h, Some l => Buffer.byteOfN (16 * h + l) :: Buffer.fromHex rest
  | _, _ => []
  end.
Proof. reflexivity. Qed.

(** Decoding the hexadecimal text of a buffer gives the buffer back, so
    [Buffer.from(buf.toString('hex'), 'hex')] loses nothing. *)
Theorem fromHex_toHex (buf : Buffer.t) : Buffer.fromHex (Buffer.toHex buf) = buf.
Proof.
  induction buf as [|b buf IH]; [reflexivity|].
  cbn [Buffer.toHex]. rewrite fromHex_pair, IH.
  destruct b; reflexivity.
Qed.

Lemma fromHex_0x_toHex (buf : Buffer.t) :
  Buffer.fromHex (dropPrefix2 ("0x" ++ Buffer.toHex buf)) = buf.
Proof. apply fromHex_toHex. Qed.

(** ** Signatures of any length *)

Lemma slice_prefix_any (buf : Buffer.t) (n : nat) :
  Buffer.slice buf 0 (Some (Z.of_nat n)) = take n buf.
Proof.
  destruct (decide (n ≤ length buf)%nat) as [Hn|Hn]; [by apply slice_prefix|].
  unfold Buffer.slice, Buffer.clamp. simpl default.
  replace (0 <? 0) with false by reflexivity.
  destruct (Z.of_nat n <? 0) eqn:Hneg; [apply Z.ltb_lt in Hneg; lia|].
  rewrite (Z.min_l 0) by lia. rewrite (Z.min_r (Z.of_nat n)) by lia.
  rewrite Z.sub_0_r, Nat2Z.id. change (Z.to_nat 0) with 0%nat. rewrite drop_0.
  rewrite !take_ge by lia. reflexivity.
Qed.

Lemma slice_last_any (buf : Buffer.t) :
  Buffer.slice buf (-1) None = drop (length buf - 1) buf.
Proof.
  destruct buf as [|b buf]; [reflexivity|]. apply slice_last. simpl. lia.
Qed.

Lemma paddedSignature_any (sig : Buffer.t) :
  paddedSignature sig =
  take 64 sig ++ replicate 31 x00 ++ drop (length sig - 1) sig.
Proof.
  unfold paddedSignature, Buffer.concat, Buffer.alloc.
  change (Some 64) with (Some (Z.of_nat 64)).
  rewrite slice_prefix_any, slice_last_any. simpl. by rewrite app_nil_r.
Qed.

Lemma paddedSignature_length_any (sig : Buffer.t) :
  length (paddedSignature sig) = (64 `min` length sig + 31 + 1 `min` length sig)%nat.
Proof.
  rewrite paddedSignature_any.
  rewrite !length_app, length_take, length_replicate, length_drop. lia.
Qed.

(** X1. Whatever the length [L] of a signature, its encoding has
    [min 64 L + 31 + min 1 L] bytes: 96 exactly when the signature has at
    least 64 bytes. Then the first 64 bytes are copied and byte 95 is the
    last byte of the signature, also when the signature is longer than 65
    bytes or has only 64. *)
Theorem paddedSignature_any_length (sig : Buffer.t) :
  length (paddedSignature sig) = (64 `min` length sig + 31 + 1 `min` length sig)%nat ∧
  (length (paddedSignature sig) = 96%nat ↔ (64 ≤ length sig)%nat) ∧
  ((64 ≤ length sig)%nat →
   take 64 (paddedSignature sig) = take 64 sig ∧
   paddedSignature sig !! 95%nat = last sig).
Proof.
  pose proof (paddedSignature_length_any sig) as Hlen.
  split; [exact Hlen|]. split; [rewrite Hlen; lia|].
  intros Hge. rewrite paddedSignature_any. split.
  - apply take_app_length'. rewrite length_take. lia.
  - unfold Buffer.t in *.
    rewrite lookup_app_r; rewrite length_take; [|lia].
    rewrite lookup_app_r by (rewrite length_replicate; lia).
    rewrite length_replicate, lookup_drop, last_lookup. f_equal. lia.
Qed.

Lemma paddedSignature_any_length_witness :
  take 64 (paddedSignature (replicate 64 x11 ++ [x00; x00; x1c])) = replicate 64 x11 ∧
  paddedSignature (replicate 64 x11 ++ [x00; x00; x1c]) !! 95%nat = Some x1c.
Proof.
  apply (proj2 (proj2 (paddedSignature_any_length (replicate 64 x11 ++ [x00; x00; x1c])))).
  vm_compute. repeat constructor.
Defined.

Lemma paddedSignature_length_le (sig : Buffer.t) :
  (length (paddedSignature sig) ≤ 96)%nat.
Proof. rewrite paddedSignature_length_any. lia. Qed.

(** X2. The encoded signatures form whole 96-byte records exactly when every
    signature has at least 64 bytes; one shorter signature makes the result
    shorter than [96 * n]. *)
Theorem solidityFormatSignatures_aligned_iff (signatures : list Buffer.t) :
  length (solidityFormatSignatures signatures) = (96 * length signatures)%nat ↔
  Forall (λ sig, (64 ≤ length sig)%nat) signatures.
Proof.
  assert (Hle : ∀ sigs, (length (solidityFormatSignatures sigs) ≤ 96 * length sigs)%nat).
  { induction sigs as [|sig sigs IH]; [done|].
    rewrite solidityFormatSignatures_cons, length_app.
    pose proof (paddedSignature_length_le sig). simpl length. lia. }
  induction signatures as [|sig signatures IH]; [by split; [constructor|]|].
  rewrite solidityFormatSignatures_cons, length_app.
  pose proof (paddedSignature_length_le sig) as Hsig.
  pose proof (Hle signatures) as Hrest.
  assert (H96 : length (paddedSignature sig) = 96%nat ↔ (64 ≤ length sig)%nat)
    by (rewrite paddedSignature_length_any; lia).
  split.
  - intros Hsum. simpl length in Hsum. constructor; [apply H96; lia|apply IH; lia].
  - intros Hall. apply Forall_cons in Hall as [Hhd Htl].
    apply H96 in Hhd. apply IH in Htl. simpl length. lia.
Qed.

(** ** Initialising and extending the asset cache *)

Section Cache.
Context `{Parser : AddressParser}.

(** The promise [init] makes for the asset at [index]. *)
Lemma init_run st order :
  init order st =
  match
    assetAddresses ← read_getSupportedAssets (rollupProcessor (this st));
    Promise_all order
      (imap (λ index a,
         assetPermitSupport ← read_getAssetPermitSupport (rollupProcessor (this st))
                                (Z.of_nat index);
         Resolved (assetHandle a assetPermitSupport)) assetAddresses)
  with
  | Resolved contracts =>
      (Resolved (),
       {| this := {| rollupContractAddress := rollupContractAddress (this st);
                     rollupProcessor := rollupProcessor (this st);
                     erc20Contracts := contracts |};
          issued := issued st |})
  | Rejected e => (Rejected e, st)
  end.
Proof. reflexivity. Qed.

Lemma init_promises (processor : Contract) (assetAddresses : list string)
    (contracts : list Contract) :
  imap (λ index a,
     assetPermitSupport ← read_getAssetPermitSupport processor (Z.of_nat index);
     Resolved (assetHandle a assetPermitSupport)) assetAddresses =
  Resolved <$> contracts ↔
  length contracts = length assetAddresses ∧
  ∀ i a, assetAddresses !! i = Some a →
    ∃ supportsPermit,
      read_getAssetPermitSupport processor (Z.of_nat i) = Resolved supportsPermit ∧
      contracts !! i = Some (assetHandle a supportsPermit).
Proof.
  split.
  - intros Heq. split.
    { apply (f_equal length) in Heq. by rewrite length_imap, length_fmap in Heq. }
    intros i a Hi. apply (f_equal (λ l, l !! i)) in Heq.
    rewrite list_lookup_imap, list_lookup_fmap, Hi in Heq. simpl in Heq.
    destruct (contracts !! i) as [c|]; [|done]. simpl in Heq.
    destruct (read_getAssetPermitSupport processor (Z.of_nat i)) as [p|]; [|done].
    simpl in Heq. exists p. split; [done|]. congruence.
  - intros [Hlen Hat]. apply list_eq. intros i.
    rewrite list_lookup_imap, list_lookup_fmap.
    destruct (assetAddresses !! i) as [a|] eqn:Hi; simpl.
    + destruct (Hat i a Hi) as (p & -> & ->). reflexivity.
    + apply lookup_ge_None in Hi.
      rewrite (proj2 (lookup_ge_None contracts i)) by lia. reflexivity.
Qed.

(** X3. After a successful [init] the cache holds one handle per asset the
    rollup processor lists, at the asset's position: its address is the
    listed address and its interface is the permit one exactly when the
    processor reports permit support for that index. [init] issues no
    transaction, and its outcome is the same for every completion order of
    the permit queries. *)
Theorem init_cache st order :
  (init order st).1 = Resolved () →
  ∃ assetAddresses,
    read_getSupportedAssets (rollupProcessor (this st)) = Resolved assetAddresses ∧
    length (erc20Contracts (this (init order st).2)) = length assetAddresses ∧
    (∀ i a, assetAddresses !! i = Some a →
       ∃ supportsPermit,
         read_getAssetPermitSupport (rollupProcessor (this st)) (Z.of_nat i) =
           Resolved supportsPermit ∧
         erc20Contracts (this (init order st).2) !! i =
           Some (assetHandle a supportsPermit)) ∧
    issued (init order st).2 = issued st ∧
    (∀ order', init order' st = init order st).
Proof.
  rewrite init_run.
  destruct (read_getSupportedAssets _) as [assetAddresses|] eqn:Hlist; simpl; [|done].
  destruct (Promise_all order _) as [contracts|] eqn:Hall; simpl; [|done].
  intros _. exists assetAddresses. split; [done|].
  pose proof (Promise_all_inv _ _ _ Hall) as Hshape.
  apply init_promises in Hshape as [Hlen Hat].
  split; [done|]. split; [done|]. split; [done|].
  intros order'. rewrite init_run, Hlist. simpl.
  by rewrite (Promise_all_order_irrelevant order order' _ _ Hall).
Qed.

Lemma Promise_all_rejected_any_order {X} (order order' : list nat)
    (promises : list (Settled X)) (e : Error) :
  Promise_all order promises = Rejected e →
  ∃ e', Promise_all order' promises = Rejected e'.
Proof.
  intros Hrej. destruct (Promise_all order' promises) as [vs|e'] eqn:Hother; [|by eexists].
  rewrite (Promise_all_order_irrelevant order' order _ _ Hother) in Hrej. done.
Qed.

Lemma Promise_all_rejected_some {X} (order : list nat)
    (promises : list (Settled X)) (e : Error) :
  Promise_all order promises = Rejected e →
  ∃ i e', promises !! i = Some (Rejected e').
Proof.
  intros Hrej.
  destruct (decide (Forall (λ p, is_Some (fulfilledValue p)) promises)) as [Hall|Hsome].
  - exfalso.
    assert (Hshape : promises = Resolved <$> omap fulfilledValue promises).
    { clear Hrej. induction Hall as [|p promises [v Hv] _ IH]; [done|].
      destruct p as [w|]; [|done]. csimpl. by rewrite <- IH. }
    rewrite Hshape, Promise_all_fulfilled in Hrej. done.
  - apply not_Forall_Exists in Hsome; [|intros p; apply _].
    apply Exists_exists in Hsome as (p & Hin & Hp).
    apply list_elem_of_lookup in Hin as [i Hi].
    destruct p as [w|e']; [exfalso; apply Hp; by eexists|]. by exists i, e'.
Qed.

(** X4. [init] is all or nothing: when it rejects, because the asset list
    or the permit query of one listed asset was rejected, the object is left
    exactly as it was, and it rejects under every completion order. *)
Theorem init_rejected st order e :
  (init order st).1 = Rejected e →
  (init order st).2 = st ∧
  (read_getSupportedAssets (rollupProcessor (this st)) = Rejected e ∨
   ∃ assetAddresses i e',
     read_getSupportedAssets (rollupProcessor (this st)) = Resolved assetAddresses ∧
     (i < length assetAddresses)%nat ∧
     read_getAssetPermitSupport (rollupProcessor (this st)) (Z.of_nat i) = Rejected e') ∧
  (∀ order', ∃ e', init order' st = (Rejected e', st)).
Proof.
  rewrite init_run.
  destruct (read_getSupportedAssets _) as [assetAddresses|] eqn:Hlist; simpl.
  - destruct (Promise_all order _) as [contracts|] eqn:Hall; simpl; [done|].
    intros [= <-]. split; [done|]. split.
    + right. destruct (Promise_all_rejected_some _ _ _ Hall) as (i & e' & Hi).
      rewrite list_lookup_imap in Hi.
      destruct (assetAddresses !! i) as [a|] eqn:Ha; [|done]. simpl in Hi.
      exists assetAddresses, i.
      destruct (read_getAssetPermitSupport _ _) as [p|e''] eqn:Hp; [done|].
      exists e''. split; [done|]. split; [by eapply lookup_lt_Some|done].
    + intros order'. rewrite init_run, Hlist. simpl.
      destruct (Promise_all_rejected_any_order order order' _ _ Hall) as [e' ->].
      by exists e'.
  - intros [= <-]. split; [done|]. split; [by left|].
    intros order'. rewrite init_run, Hlist. by eexists.
Qed.

(** X5. A successful [init] overwrites the cache: what it leaves depends on
    the rollup processor handle alone, not on what was cached, so handles
    appended by [setSupportedAsset] survive it only if the processor lists
    them. *)
Theorem init_overwrites st1 st2 order1 order2 :
  rollupProcessor (this st1) = rollupProcessor (this st2) →
  (init order1 st1).1 = Resolved () →
  (init order2 st2).1 = Resolved () ∧
  erc20Contracts (this (init order2 st2).2) = erc20Contracts (this (init order1 st1).2).
Proof.
  intros Hsame. rewrite !init_run, Hsame.
  destruct (read_getSupportedAssets _) as [assetAddresses|]; simpl; [|done].
  destruct (Promise_all order1 _) as [contracts|] eqn:Hall; simpl; [|done].
  intros _. by rewrite (Promise_all_order_irrelevant order1 order2 _ _ Hall).
Qed.

End Cache.

(** ** Using the cache *)

Section CacheUse.
Context `{Parser : AddressParser}.

Lemma init_fulfilled st order :
  (init order st).1 = Resolved () →
  ∃ assetAddresses contracts,
    read_getSupportedAssets (rollupProcessor (this st)) = Resolved assetAddresses ∧
    this (init order st).2 =
      {| rollupContractAddress := rollupContractAddress (this st);
         rollupProcessor := rollupProcessor (this st);
         erc20Contracts := contracts |} ∧
    length contracts = length assetAddresses ∧
    ∀ i a, assetAddresses !! i = Some a →
      ∃ supportsPermit,
        read_getAssetPermitSupport (rollupProcessor (this st)) (Z.of_nat i) =
          Resolved supportsPermit ∧
        contracts !! i = Some (assetHandle a supportsPermit).
Proof.
  rewrite init_run.
  destruct (read_getSupportedAssets _) as [assetAddresses|] eqn:Hlist; simpl; [|done].
  destruct (Promise_all order _) as [contracts|] eqn:Hall; simpl; [|done].
  intros _. exists assetAddresses, contracts.
  apply Promise_all_inv, init_promises in Hall as [Hlen Hat]. done.
Qed.

(** X6. After a successful [init], asset id [i] addresses the [i]-th asset
    the rollup processor lists: balance and allowance reads for it go to the
    contract at that asset's address. The nonce read goes there too when the
    processor reports permit support for [i]; when it does not, the handle
    has the plain interface and [getUserNonce] throws locally without a
    read. Ids from the number of listed assets on are rejected locally. *)
Theorem init_then_reads st order holder :
  (init order st).1 = Resolved () →
  ∃ assetAddresses,
    read_getSupportedAssets (rollupProcessor (this st)) = Resolved assetAddresses ∧
    (∀ i a, assetAddresses !! i = Some a →
       ∃ supportsPermit,
         read_getAssetPermitSupport (rollupProcessor (this st)) (Z.of_nat i) =
           Resolved supportsPermit ∧
         getAssetBalance (this (init order st).2) (Z.of_nat i) holder =
           readErc20 (assetHandle a supportsPermit) (call_balanceOf (toString holder)) ∧
         getAssetAllowance (this (init order st).2) (Z.of_nat i) holder =
           readErc20 (assetHandle a supportsPermit)
             (call_allowance (toString holder)
                (toString (rollupContractAddress (this st)))) ∧
         getUserNonce (this (init order st).2) (Z.of_nat i) holder =
           if supportsPermit
           then readErc20 (assetHandle a true) (call_nonces (toString holder))
           else Rejected (TypeError "tokenPermitContract.nonces is not a function")) ∧
    (∀ assetId, ¬ (0 ≤ assetId < Z.of_nat (length assetAddresses)) →
       getAssetBalance (this (init order st).2) assetId holder =
         Rejected (TypeError "Cannot read properties of undefined (reading 'balanceOf')") ∧
       getAssetAllowance (this (init order st).2) assetId holder =
         Rejected (TypeError "Cannot read properties of undefined (reading 'allowance')") ∧
       getUserNonce (this (init order st).2) assetId holder =
         Rejected (TypeError "Cannot read properties of undefined (reading 'nonces')")).
Proof.
  intros Hok.
  destruct (init_fulfilled st order Hok) as (assetAddresses & contracts & Hlist & -> & Hlen & Hat).
  exists assetAddresses. split; [done|]. split.
  - intros i a Hi. destruct (Hat i a Hi) as (p & Hp & Hc).
    exists p. split; [done|].
    unfold getAssetBalance, getAssetAllowance, getUserNonce, index. simpl.
    destruct (Z.of_nat i <? 0) eqn:Hneg; [apply Z.ltb_lt in Hneg; lia|].
    rewrite Nat2Z.id, Hc. simpl. unfold callRead. by destruct p.
  - intros assetId Hout. unfold getAssetBalance, getAssetAllowance, getUserNonce. simpl.
    by rewrite index_out_of_range by (rewrite Hlen; done).
Qed.

(** X7. When the provider rejects the submission, [setSupportedAsset]
    rejects with the provider's error and caches nothing: the object is as
    before and only the issued request is on record. *)
Theorem setSupportedAsset_rejected st assetAddress supportsPermit signingAddress e :
  (setSupportedAsset assetAddress supportsPermit signingAddress st).1 = Rejected e →
  this (setSupportedAsset assetAddress supportsPermit signingAddress st).2 = this st ∧
  ∃ contract,
    sendTransaction contract
      (call_setSupportedAsset (toString assetAddress) supportsPermit) = Rejected e ∧
    issued (setSupportedAsset assetAddress supportsPermit signingAddress st).2 =
      issued st ++
      [(contract, call_setSupportedAsset (toString assetAddress) supportsPermit)].
Proof.
  rewrite setSupportedAsset_run. simpl.
  destruct (sendTransaction _ _) as [tx|e'] eqn:Hsend; simpl; [done|].
  intros [= <-]. split; [done|]. eexists. split; [exact Hsend|done].
Qed.

(** X8. Read your write: after a successful [setSupportedAsset] the new
    asset answers under the id equal to the previous size of the cache. Its
    balance and allowance reads go to the handle just built; its nonce read
    goes there when the asset was registered with permit support, and throws
    locally without a read when it was not. Every id that was in range
    before reads exactly as before. *)
Theorem setSupportedAsset_then_reads st assetAddress supportsPermit signingAddress
    txHash holder :
  (setSupportedAsset assetAddress supportsPermit signingAddress st).1 = Resolved txHash →
  let self' := this (setSupportedAsset assetAddress supportsPermit signingAddress st).2 in
  let newId := Z.of_nat (length (erc20Contracts (this st))) in
  getAssetBalance self' newId holder =
    readErc20 (assetHandle (toString assetAddress) supportsPermit)
      (call_balanceOf (toString holder)) ∧
  getAssetAllowance self' newId holder =
    readErc20 (assetHandle (toString assetAddress) supportsPermit)
      (call_allowance (toString holder) (toString (rollupContractAddress (this st)))) ∧
  getUserNonce self' newId holder =
    (if supportsPermit
     then readErc20 (assetHandle (toString assetAddress) true)
            (call_nonces (toString holder))
     else Rejected (TypeError "tokenPermitContract.nonces is not a function")) ∧
  ∀ assetId, 0 ≤ assetId < newId →
    getAssetBalance self' assetId holder = getAssetBalance (this st) assetId holder ∧
    getUserNonce self' assetId holder = getUserNonce (this st) assetId holder ∧
    getAssetAllowance self' assetId holder = getAssetAllowance (this st) assetId holder.
Proof.
  rewrite setSupportedAsset_run. simpl.
  destruct (sendTransaction _ _) as [tx|]; simpl; [|done]. intros _.
  unfold getAssetBalance, getUserNonce, getAssetAllowance, index. simpl.
  destruct (Z.of_nat (length (erc20Contracts (this st))) <? 0) eqn:Hneg;
    [apply Z.ltb_lt in Hneg; lia|].
  rewrite Nat2Z.id, list_lookup_middle by done. simpl. unfold callRead.
  split; [by destruct supportsPermit|]. split; [by destruct supportsPermit|].
  split; [by destruct supportsPermit|].
  intros assetId [Hlo Hhi].
  destruct (assetId <? 0) eqn:Hneg'; [apply Z.ltb_lt in Hneg'; lia|].
  rewrite lookup_app_l by lia. done.
Qed.

Lemma mapM_Settled_fmap {X Y W} (f : Y → Settled W) (g : X → Y) (l : list X) :
  mapM (λ x, f (g x)) l = mapM f (g <$> l).
Proof.
  induction l as [|x l IH]; [done|].
  by rewrite fmap_cons, !mapM_Settled_cons, IH.
Qed.

(** X9. After a successful [init], [getTokenContractAddresses] gives what
    [getSupportedAssets] gives: the cache lists the on-chain assets, same
    addresses in the same order. *)
Theorem init_then_getTokenContractAddresses st order :
  (init order st).1 = Resolved () →
  getTokenContractAddresses (this (init order st).2) = getSupportedAssets (this st).
Proof.
  intros Hok.
  destruct (init_fulfilled st order Hok) as (assetAddresses & contracts & Hlist & -> & Hlen & Hat).
  unfold getTokenContractAddresses, getSupportedAssets. rewrite Hlist. simpl.
  rewrite mapM_Settled_fmap. f_equal.
  apply list_eq. intros i. rewrite list_lookup_fmap.
  destruct (assetAddresses !! i) as [a|] eqn:Hi.
  - destruct (Hat i a Hi) as (p & _ & ->). reflexivity.
  - apply lookup_ge_None in Hi.
    rewrite (proj2 (lookup_ge_None contracts i)) by lia. reflexivity.
Qed.

(** Every handle an object ever caches has one of the two asset
    interfaces, so the interface cases of the asset reads are the only ones
    that arise. *)
Lemma reachable_cache_interfaces st :
  reachable st →
  Forall (λ handle, interface handle = ERC20ABI ∨ interface handle = ERC20PermitABI)
    (erc20Contracts (this st)).
Proof.
  induction 1 as [addr|st order _ IH|st a p sa _ IH|st pd sg si vk sa gl _ IH
                  |st ai am da pa _ IH].
  - constructor.
  - destruct ((init order st).1) as [[]|e] eqn:Hrun.
    + destruct (init_fulfilled st order Hrun)
        as (assetAddresses & contracts & _ & -> & Hlen & Hat).
      simpl. apply Forall_lookup. intros i c Hc.
      destruct (lookup_lt_is_Some_2 assetAddresses i) as [a Ha];
        [rewrite <- Hlen; by eapply lookup_lt_Some|].
      destruct (Hat i a Ha) as (supportsPermit & _ & Hhandle).
      rewrite Hhandle in Hc. injection Hc as <-. destruct supportsPermit; auto.
    + rewrite init_run in Hrun |- *.
      destruct (_ ≫= _); simpl in *; [done|exact IH].
  - rewrite setSupportedAsset_run. destruct (sendTransaction _ _); simpl; [|exact IH].
    apply Forall_app. split; [exact IH|]. constructor; [|constructor].
    destruct p; auto.
  - rewrite sendRollupProof_run. exact IH.
  - rewrite depositPendingFunds_run. exact IH.
Qed.

End CacheUse.

(** ** From submission to reconstruction *)

Section Fidelity.
Context `{Env : Environment}.

(** X10. What [sendRollupProof] submits comes back from [decodeBlock]
    unchanged: when the ABI decoder returns the proof data and the
    concatenated viewing keys as they were sent, the decoded block holds the
    very bytes handed to [sendRollupProof], and its rollup id and size are
    those the accessors read from these bytes. *)
Theorem sendRollupProof_decodeBlock_round_trip st proofData signatures sigIndexes
    viewingKeys signingAddress gasLimit tx blk :
  parseTransaction (Tx.data tx) =
    Resolved {| args_proofData := "0x" ++ Buffer.toHex proofData;
                args_viewingKeys := "0x" ++ Buffer.toHex (Buffer.concat viewingKeys) |} →
  decodeBlock tx = Resolved blk →
  (∃ contract formattedSignatures,
     issued (sendRollupProof proofData signatures sigIndexes viewingKeys
               signingAddress gasLimit st).2 =
       issued st ++
       [(contract,
         call_processRollup ("0x" ++ Buffer.toHex proofData) formattedSignatures
           sigIndexes (Buffer.concat viewingKeys) gasLimit)]) ∧
  Block.rollupProofData blk = proofData ∧
  Block.viewingKeysData blk = Buffer.concat viewingKeys ∧
  getRollupIdFromBuffer proofData = Resolved (Block.rollupId blk) ∧
  getRollupSizeFromBuffer proofData = Resolved (Block.rollupSize blk).
Proof.
  intros Hparse Hdecode. split.
  { rewrite sendRollupProof_run. simpl. by eexists _, _. }
  unfold decodeBlock in Hdecode. rewrite Hparse in Hdecode. simpl in Hdecode.
  rewrite !fromHex_toHex in Hdecode.
  destruct (getRollupIdFromBuffer proofData) as [rollupId|]; simpl in Hdecode; [|done].
  destruct (getRollupSizeFromBuffer proofData) as [rollupSize|]; simpl in Hdecode; [|done].
  by injection Hdecode as <-.
Qed.

(** X11. A fulfilled [sendRollupProof] made one request, the
    [processRollup] call with the hex text of the proof data, the encoded
    signatures and the concatenated viewing keys, and the identifier it
    returns is the hash of the transaction the provider answered that very
    request with, as raw bytes without the [0x] of its text form. It is the
    [txHash] of any block later decoded from a transaction with that hash. *)
Theorem sendRollupProof_identifier st proofData signatures sigIndexes viewingKeys
    signingAddress gasLimit identifier :
  (sendRollupProof proofData signatures sigIndexes viewingKeys signingAddress gasLimit st).1 =
    Resolved identifier →
  ∃ contract tx,
    let call :=
      call_processRollup ("0x" ++ Buffer.toHex proofData)
        (solidityFormatSignatures signatures) sigIndexes
        (Buffer.concat viewingKeys) gasLimit in
    issued (sendRollupProof proofData signatures sigIndexes viewingKeys
              signingAddress gasLimit st).2 = issued st ++ [(contract, call)] ∧
    sendTransaction contract call = Resolved tx ∧
    identifier = Buffer.fromHex (dropPrefix2 (Tx.hash tx)) ∧
    (∀ hash, Tx.hash tx = ("0x" ++ Buffer.toHex hash)%string → identifier = hash) ∧
    (∀ tx' blk, Tx.hash tx' = Tx.hash tx → decodeBlock tx' = Resolved blk →
                Block.txHash blk = identifier).
Proof.
  rewrite sendRollupProof_run. simpl.
  destruct (sendTransaction _ _) as [tx|] eqn:Hsend; simpl; [|done].
  intros [= <-]. eexists _, tx. split; [reflexivity|].
  split; [exact Hsend|]. split; [reflexivity|]. split.
  - intros hash ->. apply fromHex_0x_toHex.
  - intros tx' blk Hhash Hdecode.
    apply decodeBlock_fields in Hdecode as [-> _]. by rewrite Hhash.
Qed.

Lemma mapM_reconstructTx (txs : list Tx.t) (out : list Block.t) :
  mapM reconstructTx txs = Resolved out ↔
  ∃ blocks,
    (λ tx, getBlock (Tx.blockNumber tx)) <$> txs = Resolved <$> blocks ∧
    Forall2 (λ p blk, stamped p.1 p.2 = Resolved blk) (zip txs blocks) out.
Proof.
  rewrite mapM_Resolved. split.
  - induction 1 as [|tx blk txs out Htx _ (blocks & Hblocks & Hzip)]; [by exists []|].
    unfold reconstructTx in Htx.
    destruct (getBlock (Tx.blockNumber tx)) as [block|] eqn:Hblock; [|done].
    exists (block :: blocks). csimpl. rewrite Hblock, Hblocks.
    split; [done|]. by constructor.
  - intros (blocks & Hblocks & Hzip). revert blocks out Hblocks Hzip.
    induction txs as [|tx txs IH]; intros [|block blocks] out Hblocks Hzip;
      try done.
    + inv Hzip. constructor.
    + injection Hblocks as Hblock Hblocks. simpl in Hzip. inv Hzip.
      constructor; [|by eapply IH].
      unfold reconstructTx. by rewrite Hblock.
Qed.

Lemma getRollupBlocksFrom_fulfilled_1 self rollupId minConfirmations txOrder blockOrder out :
  getRollupBlocksFrom self rollupId minConfirmations txOrder blockOrder = Resolved out →
  ∃ rollupEvents fetched,
    rollupEventsFrom self rollupId = Resolved rollupEvents ∧
    getTransaction <$> rollupEvents = Resolved <$> fetched ∧
    mapM reconstructTx (retainedBy minConfirmations fetched) = Resolved out.
Proof.
  intros Hrun.
  destruct (getRollupBlocksFrom_inv _ _ _ _ _ _ Hrun)
    as [[Hnone ->]|(rollupEvent & rest & rollupEvents & fetched & blocks &
                    Hfirst & Hall & Htxs & Hblocks & Hout)].
  - exists [], []. split; [by apply rollupEventsFrom_none|done].
  - exists rollupEvents, fetched. split; [by eapply rollupEventsFrom_some|].
    split; [done|]. apply mapM_reconstructTx. by exists blocks.
Qed.

Lemma getRollupBlocksFrom_fulfilled_2 self rollupId minConfirmations txOrder blockOrder
    rollupEvents fetched out :
  rollupEventsFrom self rollupId = Resolved rollupEvents →
  getTransaction <$> rollupEvents = Resolved <$> fetched →
  mapM reconstructTx (retainedBy minConfirmations fetched) = Resolved out →
  getRollupBlocksFrom self rollupId minConfirmations txOrder blockOrder = Resolved out.
Proof.
  intros Hevents Htxs Hout. unfold rollupEventsFrom in Hevents.
  destruct (queryFilter _ (RollupProcessed (Some rollupId)) None)
    as [[|rollupEvent rest]|] eqn:Hfirst; simpl in Hevents; [| |done].
  - injection Hevents as <-. destruct fetched; [|done].
    injection Hout as <-. unfold getRollupBlocksFrom. by rewrite Hfirst.
  - apply mapM_reconstructTx in Hout as (blocks & Hblocks & Hzip).
    rewrite (getRollupBlocksFrom_run _ _ _ _ _ _ _ _ _ _ Hfirst Hevents Htxs Hblocks).
    by apply mapM_Resolved.
Qed.

End Fidelity.

(** ** When the reconstructor is fulfilled *)

Section Fulfilment.
Context `{Env : Environment}.

(** X12. [getRollupBlocksFrom] is fulfilled exactly when the event queries
    are, the transaction of every event is fetched, and every transaction
    with enough confirmations has its block looked up and is decoded; the
    result is then the reconstruction of those transactions, in order.
    Lookups for transactions with too few confirmations are never needed. *)
Theorem getRollupBlocksFrom_fulfilled_iff self rollupId minConfirmations
    txOrder blockOrder out :
  getRollupBlocksFrom self rollupId minConfirmations txOrder blockOrder = Resolved out ↔
  ∃ rollupEvents fetched,
    rollupEventsFrom self rollupId = Resolved rollupEvents ∧
    getTransaction <$> rollupEvents = Resolved <$> fetched ∧
    mapM reconstructTx
      (filter (λ tx, minConfirmations ≤ Tx.confirmations tx) fetched) = Resolved out.
Proof.
  split.
  - apply getRollupBlocksFrom_fulfilled_1.
  - intros (rollupEvents & fetched & Hevents & Htxs & Hout).
    by eapply getRollupBlocksFrom_fulfilled_2.
Qed.

(** X13. A rejected transaction lookup for any one of the events rejects the
    whole call, under every completion order and for every
    [minConfirmations], also one so high that the transaction would not have
    been kept: the confirmations are only known once all are fetched. *)
Theorem getRollupBlocksFrom_rejected_lookup self rollupId minConfirmations
    txOrder blockOrder rollupEvents e err :
  rollupEventsFrom self rollupId = Resolved rollupEvents →
  e ∈ rollupEvents →
  getTransaction e = Rejected err →
  ∃ err', getRollupBlocksFrom self rollupId minConfirmations txOrder blockOrder =
          Rejected err'.
Proof.
  intros Hevents Hin Hrej.
  destruct (getRollupBlocksFrom _ _ _ _ _) as [out|err'] eqn:Hrun; [|by eexists].
  exfalso. apply getRollupBlocksFrom_fulfilled_1 in Hrun
    as (rollupEvents' & fetched & Hevents' & Htxs & _).
  rewrite Hevents in Hevents'. injection Hevents' as <-.
  apply list_elem_of_lookup in Hin as [i Hi].
  apply (f_equal (λ l, l !! i)) in Htxs.
  rewrite !list_lookup_fmap, Hi in Htxs. simpl in Htxs.
  rewrite Hrej in Htxs. by destruct (fetched !! i).
Qed.

Lemma retainedBy_mono (m1 m2 : Z) (fetched : list Tx.t) :
  m1 ≤ m2 → retainedBy m2 fetched `sublist_of` retainedBy m1 fetched.
Proof.
  intros Hle. unfold retainedBy.
  induction fetched as [|tx fetched IH]; [done|].
  rewrite !filter_cons.
  destruct (decide (m2 ≤ Tx.confirmations tx)), (decide (m1 ≤ Tx.confirmations tx));
    try lia; [by apply sublist_skip|by apply sublist_cons|done].
Qed.

Lemma mapM_Settled_sublist {X Y} (f : X → Settled Y) (l l' : list X) (out : list Y) :
  l' `sublist_of` l →
  mapM f l = Resolved out →
  ∃ out', mapM f l' = Resolved out' ∧ out' `sublist_of` out.
Proof.
  intros Hsub. revert out.
  induction Hsub as [|x l' l Hsub IH|x l' l Hsub IH]; intros out Hrun.
  - exists []. split; [done|]. apply sublist_nil_l.
  - apply mapM_Resolved in Hrun. inv Hrun.
    destruct (IH l'0) as (out' & Hout' & Hsub'); [by apply mapM_Resolved|].
    exists (y :: out'). split; [|by apply sublist_skip].
    rewrite mapM_Settled_cons. by rewrite H1, Hout'.
  - apply mapM_Resolved in Hrun. inv Hrun.
    destruct (IH l'0) as (out' & Hout' & Hsub'); [by apply mapM_Resolved|].
    exists out'. split; [done|by apply sublist_cons].
Qed.

(** X14. Asking for more confirmations can only drop blocks: if the call is
    fulfilled for [m1] and [m1 ≤ m2], it is fulfilled for [m2] too, under
    any completion order, with a subsequence of the blocks returned for
    [m1]. *)
Theorem getRollupBlocksFrom_more_confirmations self rollupId m1 m2
    txOrder blockOrder txOrder' blockOrder' out1 :
  m1 ≤ m2 →
  getRollupBlocksFrom self rollupId m1 txOrder blockOrder = Resolved out1 →
  ∃ out2,
    getRollupBlocksFrom self rollupId m2 txOrder' blockOrder' = Resolved out2 ∧
    out2 `sublist_of` out1.
Proof.
  intros Hle Hrun.
  apply getRollupBlocksFrom_fulfilled_1 in Hrun
    as (rollupEvents & fetched & Hevents & Htxs & Hout).
  destruct (mapM_Settled_sublist _ _ _ _ (retainedBy_mono m1 m2 fetched Hle) Hout)
    as (out2 & Hout2 & Hsub).
  exists out2. split; [|done].
  by eapply getRollupBlocksFrom_fulfilled_2.
Qed.

End Fulfilment.

(** ** The send composer *)

Module SendComposerFacts.
Import SendComposer.

Section Facts.
Context `{Sdk : Collaborators}.

Ltac run_compose :=
  unfold compose, tryCatch, createController, mbind, Step_bind, mret, Step_ret, perform;
  simpl.

Ltac answer :=
  match goal with
  | |- context [match ?o with Returned _ => _ | Threw _ => _ end] =>
      let H := fresh "Hcall" in destruct o eqn:H; simpl
  | |- context [match ?r with SEND _ => _ | WIDTHDRAW _ => _ end] =>
      let H := fresh "Hmode" in destruct r eqn:H; simpl
  end.

(** X15. The phases [compose] announces are always an initial stretch of
    generating the key, creating the proof, sending the proof, done, in this
    order and each at most once; its first call clears the previous error;
    and it answers [true] only after announcing all four. *)
Theorem compose_phases_in_order payload deps :
  phasesOf (compose payload deps []).2 `prefix_of` allPhases ∧
  head (compose payload deps []).2 = Some clearError ∧
  ((compose payload deps []).1 = Returned true →
   phasesOf (compose payload deps []).2 = allPhases).
Proof.
  run_compose. repeat answer;
    (split; [by eexists|]; split; [reflexivity|]; intros Htrue;
     first [discriminate Htrue | reflexivity]).
Qed.

Ltac use_answers :=
  simpl; unfold answerOf;
  repeat match goal with
         | H : ?o = _ |- context [?o] => rewrite H
         end.

(** X16. Provided the observer's [clearError] and [error] do not throw,
    [compose] never rejects. It answers [true] when every call it made
    returned, the last being the announcement of the final phase. It answers
    [false] when some call threw: it made no further call of the run, and
    reported the message of what was thrown to the observer. *)
Theorem compose_stops_at_first_failure payload deps :
  stateObs_clearError = Returned () →
  (∀ message, stateObs_error message = Returned ()) →
  ((compose payload deps []).1 = Returned true ∧
   Forall (λ call, thrownBy deps call = None) (compose payload deps []).2 ∧
   last (compose payload deps []).2 = Some (setPhase DONE)) ∨
  ((compose payload deps []).1 = Returned false ∧
   ∃ before failing thrown,
     (compose payload deps []).2 =
       before ++ [failing; debug thrown; error (message thrown)] ∧
     Forall (λ call, thrownBy deps call = None) before ∧
     thrownBy deps failing = Some thrown).
Proof.
  intros Hclear Herror. run_compose. rewrite Hclear. simpl.
  repeat (first [rewrite Herror; simpl | answer]);
    lazymatch goal with
    | |- (Returned true = Returned true ∧ _) ∨ _ =>
        left; split; [reflexivity|]; split; [|reflexivity];
        repeat (apply List.Forall_cons; [by use_answers|]); apply List.Forall_nil
    | |- _ ∨ (_ ∧ ∃ before failing thrown, ?tr = _ ∧ _) =>
        right; split; [reflexivity|];
        exists (take (length tr - 3) tr); simpl; eexists _, _;
        split; [reflexivity|]; split; [|by use_answers];
        repeat (apply List.Forall_cons; [by use_answers|]); apply List.Forall_nil
    end.
Qed.

(** X17. [compose] sends at most once, and only a proof it has created: a
    [send] on a controller comes right after [createProof] on that
    controller returned and the sending phase was announced. *)
Theorem compose_sends_only_created_proof payload deps controller :
  call_send controller ∈ (compose payload deps []).2 →
  createProof controller = Returned () ∧
  ∃ before after,
    (compose payload deps []).2 =
      before ++
      [call_createProof controller; setPhase SENDING_PROOF; call_send controller] ++
      after ∧
    (∀ c, call_send c ∉ before) ∧
    (∀ c, call_send c ∉ after).
Proof.
  run_compose. repeat answer; intros Hin;
    repeat (apply elem_of_cons in Hin as [Hin|Hin]; [try discriminate Hin|]);
    try (by apply elem_of_nil in Hin);
    injection Hin as <-;
    (split;
      [match goal with
       | H : createProof _ = Returned ?u |- _ => rewrite H; by destruct u
       end|]);
    match goal with
    | |- ∃ before after, ?tr = _ ∧ _ => exists (take 9 tr), (drop 12 tr)
    end; simpl;
    (split; [reflexivity|]);
    split; intros c Hc;
    repeat (apply elem_of_cons in Hc as [Hc|Hc]; [discriminate Hc|]);
    by apply elem_of_nil in Hc.
Qed.

(** X18. The controller is made for the recipient's mode and from the
    composer's own data: a transfer controller only for a [SEND] recipient, a
    withdraw controller only for a [WIDTHDRAW] one, with the composer's
    account, the converted target and fee amounts, and the recipient. *)
Theorem compose_controller_matches_recipient payload deps :
  (∀ account signer value fee to,
     call_createTransferController account signer value fee to ∈
       (compose payload deps []).2 →
     recipient payload = SEND to ∧
     account = accountId deps ∧
     toAssetValue (targetAmount payload) = Returned value ∧
     toAssetValue (feeAmount payload) = Returned fee) ∧
  (∀ account signer value fee to,
     call_createWithdrawController account signer value fee to ∈
       (compose payload deps []).2 →
     recipient payload = WIDTHDRAW to ∧
     account = accountId deps ∧
     toAssetValue (targetAmount payload) = Returned value ∧
     toAssetValue (feeAmount payload) = Returned fee).
Proof.
  run_compose. repeat answer;
    (split; intros account signer' value' fee' to' Hin;
     repeat (apply elem_of_cons in Hin as [Hin|Hin]; [try discriminate Hin|]);
     try (by apply elem_of_nil in Hin);
     by simplify_eq).
Qed.

End Facts.

End SendComposerFacts.

(** ** The further properties on the concrete chain *)

Lemma init_cache_witness :
  erc20Contracts (this (init (Env := Scenario.env) [1%nat; 0%nat] Scenario.start).2) !! 1%nat =
    Some (assetHandle "0xe1" true) ∧
  init (Env := Scenario.env) [] Scenario.start =
    init (Env := Scenario.env) [1%nat; 0%nat] Scenario.start.
Proof.
  destruct (init_cache (Env := Scenario.env) Scenario.start [1%nat; 0%nat] eq_refl)
    as (assetAddresses & Hlist & _ & Hat & _ & Hany).
  vm_compute in Hlist. injection Hlist as <-.
  destruct (Hat 1%nat "0xe1"%string eq_refl) as (supportsPermit & Hpermit & Hhandle).
  vm_compute in Hpermit. injection Hpermit as <-.
  split; [exact Hhandle|exact (Hany [])].
Defined.

Lemma init_rejected_witness :
  (init (Env := Outage.env) [0%nat; 1%nat] Outage.start).2 = Outage.start ∧
  ∃ e, init (Env := Outage.env) [1%nat; 0%nat] Outage.start = (Rejected e, Outage.start).
Proof.
  destruct (init_rejected (Env := Outage.env) Outage.start [0%nat; 1%nat]
              (ProviderError "timeout") eq_refl) as (Hsame & _ & Hany).
  split; [exact Hsame|exact (Hany [1%nat; 0%nat])].
Defined.

Lemma init_overwrites_witness :
  length (erc20Contracts (this Scenario.registered)) = 3%nat ∧
  erc20Contracts (this (init (Env := Scenario.env) [] Scenario.registered).2) =
    erc20Contracts (this (init (Env := Scenario.env) [1%nat; 0%nat] Scenario.start).2).
Proof.
  split; [reflexivity|].
  exact (proj2 (init_overwrites (Env := Scenario.env) Scenario.start Scenario.registered
                  [1%nat; 0%nat] [] eq_refl eq_refl)).
Defined.

Lemma init_then_reads_witness :
  getAssetBalance (Env := Scenario.env)
    (this (init (Env := Scenario.env) [] Scenario.start).2) 1 "0xd0"%string =
    Resolved 7 ∧
  getUserNonce (Env := Scenario.env)
    (this (init (Env := Scenario.env) [] Scenario.start).2) 1 "0xd0"%string =
    Resolved 7 ∧
  getUserNonce (Env := Scenario.env)
    (this (init (Env := Scenario.env) [] Scenario.start).2) 0 "0xd0"%string =
    Rejected (TypeError "tokenPermitContract.nonces is not a function").
Proof.
  destruct (init_then_reads (Env := Scenario.env) Scenario.start [] "0xd0"%string eq_refl)
    as (assetAddresses & Hlist & Hat & _).
  vm_compute in Hlist. injection Hlist as <-.
  destruct (Hat 1%nat "0xe1"%string eq_refl)
    as (permit1 & Hpermit1 & Hbalance & _ & Hnonce1).
  destruct (Hat 0%nat "0xe0"%string eq_refl) as (permit0 & Hpermit0 & _ & _ & Hnonce0).
  vm_compute in Hpermit1. injection Hpermit1 as <-.
  vm_compute in Hpermit0. injection Hpermit0 as <-.
  split; [exact Hbalance|]. split; [exact Hnonce1|exact Hnonce0].
Defined.

Lemma setSupportedAsset_rejected_witness :
  this (setSupportedAsset (Env := Outage.env) "0xe2"%string true None Outage.start).2 =
    this Outage.start.
Proof.
  exact (proj1 (setSupportedAsset_rejected (Env := Outage.env) Outage.start
                  "0xe2"%string true None (ProviderError "execution reverted") eq_refl)).
Defined.

Lemma setSupportedAsset_then_reads_witness :
  getAssetBalance (Env := Scenario.env) (this Scenario.registered) 2 "0xd0"%string =
    Resolved 7 ∧
  getUserNonce (Env := Scenario.env) (this Scenario.registered) 2 "0xd0"%string =
    Resolved 7 ∧
  getAssetBalance (Env := Scenario.env) (this Scenario.registered) 0 "0xd0"%string =
    Resolved 3 ∧
  getUserNonce (Env := Scenario.env)
    (this (setSupportedAsset (Env := Scenario.env) "0xe3"%string false None
             Scenario.registered).2) 3 "0xd0"%string =
    Rejected (TypeError "tokenPermitContract.nonces is not a function").
Proof.
  destruct (setSupportedAsset_then_reads (Env := Scenario.env)
              (init (Env := Scenario.env) [1%nat; 0%nat] Scenario.start).2
              "0xe2"%string true None (replicate 32 xab) "0xd0"%string eq_refl)
    as (Hnew & _ & Hnonce & Hold).
  destruct (setSupportedAsset_then_reads (Env := Scenario.env) Scenario.registered
              "0xe3"%string false None (replicate 32 xab) "0xd0"%string eq_refl)
    as (_ & _ & Hplain & _).
  split; [exact Hnew|]. split; [exact Hnonce|]. split; [|exact Hplain].
  destruct (Hold 0) as (Hbalance & _); [vm_compute; by split|].
  etransitivity; [exact Hbalance|reflexivity].
Defined.

Lemma init_then_getTokenContractAddresses_witness :
  getTokenContractAddresses (Parser := Outage.parser)
    (this (init (Env := Scenario.env) [] Scenario.start).2) =
  Resolved ["0xe0"%string; "0xe1"%string].
Proof.
  etransitivity;
    [exact (init_then_getTokenContractAddresses (Parser := Outage.parser)
              Scenario.start [] eq_refl)|reflexivity].
Defined.

Lemma sendRollupProof_decodeBlock_round_trip_witness :
  ∃ blk,
    decodeBlock (Env := Scenario.env) Scenario.tx0 = Resolved blk ∧
    Block.rollupProofData blk = [x00; x04] ∧
    getRollupIdFromBuffer (Environment := Scenario.env) [x00; x04] =
      Resolved (Block.rollupId blk).
Proof.
  eexists. split; [reflexivity|].
  destruct (sendRollupProof_decodeBlock_round_trip (Env := Scenario.env) Scenario.start
              [x00; x04] [] [] [] None None Scenario.tx0 _ eq_refl eq_refl)
    as (_ & Hdata & _ & Hid & _).
  split; [exact Hdata|exact Hid].
Defined.

Lemma sendRollupProof_identifier_witness :
  ∃ contract tx,
    issued (sendRollupProof (Env := Scenario.env) [x00; x04] [] [] [] None None
              Scenario.start).2 =
      [(contract, call_processRollup "0x0004" [] [] [] None)] ∧
    sendTransaction (Environment := Scenario.env) contract
      (call_processRollup "0x0004" [] [] [] None) = Resolved tx ∧
    replicate 32 xab = Buffer.fromHex (dropPrefix2 (Tx.hash tx)).
Proof.
  destruct (sendRollupProof_identifier (Env := Scenario.env) Scenario.start
              [x00; x04] [] [] [] None None (replicate 32 xab) eq_refl)
    as (contract & tx & Hissued & Hsend & Hid & _).
  exists contract, tx. split; [exact Hissued|]. split; [exact Hsend|exact Hid].
Defined.

Lemma getRollupBlocksFrom_rejected_lookup_witness :
  ∃ err, getRollupBlocksFrom (Env := Outage.env) (this Outage.start) 0 100 [] [] =
         Rejected err.
Proof.
  apply (getRollupBlocksFrom_rejected_lookup (Env := Outage.env) (this Outage.start) 0 100
           [] [] [Scenario.event0; Scenario.event1; Scenario.event2] Scenario.event2
           (ProviderError "timeout")).
  - reflexivity.
  - apply elem_of_cons. right. apply elem_of_cons. right. apply elem_of_cons. by left.
  - reflexivity.
Defined.

Lemma getRollupBlocksFrom_more_confirmations_witness :
  ∃ out2,
    getRollupBlocksFrom (Env := Scenario.env) Scenario.contracts 1 5 [] [] = Resolved out2 ∧
    out2 `sublist_of` Scenario.blocksFrom1.
Proof.
  apply (getRollupBlocksFrom_more_confirmations (Env := Scenario.env) Scenario.contracts
           1 0 5 [1%nat; 0%nat] [] [] [] Scenario.blocksFrom1).
  - vm_compute. intros H. discriminate H.
  - reflexivity.
Defined.

Lemma compose_stops_at_first_failure_witness :
  (SendComposer.compose (Sdk := SendComposer.sendFails)
     (SendComposer.transferPayload SendComposer.sendFails "bob"%string 5 1)
     SendComposer.sendFailsDeps []).1 = SendComposer.Returned false ∧
  last (SendComposer.compose (Sdk := SendComposer.sendFails)
          (SendComposer.transferPayload SendComposer.sendFails "bob"%string 5 1)
          SendComposer.sendFailsDeps []).2 =
    Some (SendComposer.error (Some "rejected by server"%string)).
Proof.
  destruct (SendComposerFacts.compose_stops_at_first_failure (Sdk := SendComposer.sendFails)
              (SendComposer.transferPayload SendComposer.sendFails "bob"%string 5 1)
              SendComposer.sendFailsDeps eq_refl (λ _, eq_refl))
    as [(Htrue & _)|(Hfalse & _)].
  - discriminate Htrue.
  - split; [exact Hfalse|reflexivity].
Defined.

Lemma compose_sends_only_created_proof_witness :
  SendComposer.createProof (Collaborators := SendComposer.working) "transfer"%string =
  SendComposer.Returned ().
Proof.
  apply (SendComposerFacts.compose_sends_only_created_proof (Sdk := SendComposer.working)
           (SendComposer.transferPayload SendComposer.working "bob"%string 5 1)
           SendComposer.workingDeps "transfer"%string).
  vm_compute. do 11 (apply list_elem_of_further). apply list_elem_of_here.
Defined.
